(** * GAMENIGHT SDK: the turn-based game lifecycle controller

    A shallow embedding of [Game.js] (with [Player.js] and
    [helpers/shuffle.js]) and the properties of the lifecycle that the
    specification states about it.

    Conventions of the embedding:
    - JavaScript values are the inductive [value]; truthiness, property
      access and [Object.assign] are written out on it.
    - Player identifiers are strings, on which [==] is string equality.
    - Counters (round and turn numbers) are integers [Z].
    - The rule set (the methods a concrete game adds to the class) is the
      record [Rules]: every hook is optional, as in [if(this.handleX)], and
      is given by what it returns in the state it is called in. Every call
      adds to the trace, so no two calls of a run see the same state and
      any series of answers is the series of some rule set. A hook that
      writes the controller's fields itself is not covered.
    - A promise is represented by the way it settles; a chain of [.then]
      and [.catch] is run to quiescence, the state being threaded through
      the handlers in the order the microtask queue runs them.
    - Calls that leave the controller (room broadcasts, emitted events,
      console output, hook invocations) are appended to [trace].
    - [startTurn], [nextTurn], [nextRound] and [startRound] call each other
      without a bound in the source; the embedding counts the call depth
      down and answers [Diverges] when the budget is used up. *)

From stdpp Require Import base list strings pretty.
From Stdlib Require Import ZArith Lia.

Local Open Scope string_scope.
Local Open Scope Z_scope.
Local Open Scope list_scope.

(** ** JavaScript values *)

#[local] Set Warnings "-register-all".

Inductive value : Type :=
| VUndefined
| VNull
| VBool (b : bool)
| VNum (n : Z)
| VStr (s : string)
| VObj (fields : list (string * value))
| VError (msg : string).

(** [if(v)] *)
Definition truthy (v : value) : bool :=
  match v with
  | VUndefined | VNull => false
  | VBool b => b
  | VNum n => negb (n =? 0)
  | VStr s => negb (String.eqb s "")
  | VObj _ | VError _ => true
  end.

(** [v instanceof Error] *)
Definition is_error (v : value) : bool :=
  match v with VError _ => true | _ => false end.

(** [a === b]; two object values are never the same reference here. *)
Definition strict_eq (a b : value) : bool :=
  match a, b with
  | VUndefined, VUndefined | VNull, VNull => true
  | VBool x, VBool y => Bool.eqb x y
  | VNum x, VNum y => x =? y
  | VStr x, VStr y => String.eqb x y
  | _, _ => false
  end.

Definition is_primitive (v : value) : bool :=
  match v with VObj _ | VError _ => false | _ => true end.

Fixpoint assoc (k : string) (fs : list (string * value)) : option value :=
  match fs with
  | [] => None
  | (k', v) :: fs' => if String.eqb k' k then Some v else assoc k fs'
  end.

(** The error raised when a property of [undefined] or [null] is read, or
    when something that is not a function is called. *)
Definition TypeError : value := VError "TypeError".

(** [v.k]: [None] stands for the TypeError on [undefined] and [null]. *)
Definition get_prop (v : value) (k : string) : option value :=
  match v with
  | VUndefined | VNull => None
  | VObj fs => Some (default VUndefined (assoc k fs))
  | _ => Some VUndefined
  end.

(** [target[k] = v] on a plain object: an existing key keeps its place. *)
Fixpoint put_prop (k : string) (v : value) (fs : list (string * value)) : list (string * value) :=
  match fs with
  | [] => [(k, v)]
  | (k', v') :: fs' =>
      if String.eqb k' k then (k, v) :: fs' else (k', v') :: put_prop k v fs'
  end.

Definition index_key (i : nat) : string := pretty i.

Fixpoint string_props (i : nat) (s : string) : list (string * value) :=
  match s with
  | EmptyString => []
  | String c s' => (index_key i, VStr (String c EmptyString)) :: string_props (S i) s'
  end.

(** The own enumerable properties [Object.assign] copies from a source. *)
Definition own_props (v : value) : list (string * value) :=
  match v with
  | VObj fs => fs
  | VStr s => string_props 0 s
  | _ => []
  end.

(** [Object.assign({}, a, b)] on the property lists of [a] and of [b]. *)
Definition object_assign (a : list (string * value)) (b : value) : list (string * value) :=
  fold_left (fun acc kv => put_prop kv.1 kv.2 acc) (own_props b)
    (fold_left (fun acc kv => put_prop kv.1 kv.2 acc) a []).

(** ** Promises and what a call hands back *)

Inductive promise (A : Type) : Type :=
| Fulfilled (a : A)
| Rejected (reason : value)
| Pending.
Arguments Fulfilled {A} a.
Arguments Rejected {A} reason.
Arguments Pending {A}.

(** A hook or method returns a plain value or a promise. *)
Inductive jsret : Type :=
| Plain (v : value)
| Promised (p : promise value).

(** ** Data model *)

Record Player : Type := mkPlayer {
  _id : string;
  ready : bool
}.

Record Round : Type := mkRound {
  r_number : Z;
  r_fields : list (string * value)
}.

Record Turn : Type := mkTurn {
  t_number : Z;
  t_player_id : option string
}.

Record Move : Type := mkMove {
  m_player_id : string;
  m_round : Z;
  m_turn : Z;
  m_payload : value
}.

Definition move_value (m : Move) : value :=
  VObj [("player_id", VStr (m_player_id m)); ("round", VNum (m_round m));
        ("turn", VNum (m_turn m)); ("payload", m_payload m)].

Definition round_value (r : Round) : value :=
  VObj (("number", VNum (r_number r)) :: r_fields r).

Definition turn_value (t : Turn) : value :=
  VObj [("number", VNum (t_number t));
        ("player_id", from_option VStr VUndefined (t_player_id t))].

(** The optional methods of a concrete game. *)
Inductive hook_call : Type :=
| CallSetup
| CallHandleReadyUp (player_id : string) (payload : value)
| CallHandleMove (payload : value)
| CallHandleTurnStart (player : Player) (r : Round) (t : Turn)
| CallHandleTurnEnd (player : option Player)
| CallHandleRoundStart (r : Round)
| CallHandleRoundEnd (r : Round)
| CallHandleEnd (payload : value).

Inductive event : Type :=
| Broadcast (name : string) (payload : value)   (* this.room.broadcast *)
| BroadcastSecret (name : string)               (* this.room.broadcast_secret *)
| Emit (name : string) (payload : value)        (* this.emit *)
| ConsoleLog (v : value)                        (* console.log *)
| Called (h : hook_call).

Record Game : Type := mkGame {
  room_players : list string;     (* this.room.players, by identifier *)
  name : string;
  players : list Player;
  settings : list (string * value);
  started : bool;
  moves : list Move;
  round : Round;
  turn : Turn;
  maxRounds : option Z;
  playerOrder : list string;
  endResults : value;
  trace : list event
}.

Definition set_players (v : list Player) (g : Game) : Game :=
  mkGame (room_players g) (name g) v (settings g) (started g) (moves g)
    (round g) (turn g) (maxRounds g) (playerOrder g) (endResults g) (trace g).
Definition set_settings (v : list (string * value)) (g : Game) : Game :=
  mkGame (room_players g) (name g) (players g) v (started g) (moves g)
    (round g) (turn g) (maxRounds g) (playerOrder g) (endResults g) (trace g).
Definition set_started (v : bool) (g : Game) : Game :=
  mkGame (room_players g) (name g) (players g) (settings g) v (moves g)
    (round g) (turn g) (maxRounds g) (playerOrder g) (endResults g) (trace g).
Definition set_moves (v : list Move) (g : Game) : Game :=
  mkGame (room_players g) (name g) (players g) (settings g) (started g) v
    (round g) (turn g) (maxRounds g) (playerOrder g) (endResults g) (trace g).
Definition set_round (v : Round) (g : Game) : Game :=
  mkGame (room_players g) (name g) (players g) (settings g) (started g) (moves g)
    v (turn g) (maxRounds g) (playerOrder g) (endResults g) (trace g).
Definition set_turn (v : Turn) (g : Game) : Game :=
  mkGame (room_players g) (name g) (players g) (settings g) (started g) (moves g)
    (round g) v (maxRounds g) (playerOrder g) (endResults g) (trace g).
Definition set_maxRounds (v : option Z) (g : Game) : Game :=
  mkGame (room_players g) (name g) (players g) (settings g) (started g) (moves g)
    (round g) (turn g) v (playerOrder g) (endResults g) (trace g).
Definition set_playerOrder (v : list string) (g : Game) : Game :=
  mkGame (room_players g) (name g) (players g) (settings g) (started g) (moves g)
    (round g) (turn g) (maxRounds g) v (endResults g) (trace g).
Definition set_endResults (v : value) (g : Game) : Game :=
  mkGame (room_players g) (name g) (players g) (settings g) (started g) (moves g)
    (round g) (turn g) (maxRounds g) (playerOrder g) v (trace g).
Definition log (e : event) (g : Game) : Game :=
  mkGame (room_players g) (name g) (players g) (settings g) (started g) (moves g)
    (round g) (turn g) (maxRounds g) (playerOrder g) (endResults g) (trace g ++ [e]).

(** ** The rule set *)

Record Rules : Type := mkRules {
  setup : option (Game -> jsret);
  handleReadyUp : option (Game -> string -> value -> jsret);
  handleMove : option (Game -> value -> promise value);
  handleTurnStart : bool;
  handleTurnEnd : option (Game -> option Player -> promise unit);
  handleRoundStart : option (Game -> Round -> promise Round);
  handleRoundEnd : option (Game -> Round -> promise unit);
  handleEnd : option (Game -> value -> promise value)
}.

(** ** Computations on the game state *)

Inductive completion (A : Type) : Type :=
| Returns (a : A)
| Throws (e : value)
| Diverges.
Arguments Returns {A} a.
Arguments Throws {A} e.
Arguments Diverges {A}.

Definition M (A : Type) : Type := Game -> Game * completion A.

Definition ret {A} (a : A) : M A := fun g => (g, Returns a).
Definition throw {A} (e : value) : M A := fun g => (g, Throws e).
Definition diverge {A} : M A := fun g => (g, Diverges).
Definition bind {A B} (m : M A) (k : A -> M B) : M B :=
  fun g =>
    match m g with
    | (g1, Returns a) => k a g1
    | (g1, Throws e) => (g1, Throws e)
    | (g1, Diverges) => (g1, Diverges)
    end.
Definition get : M Game := fun g => (g, Returns g).
Definition modify (f : Game -> Game) : M unit := fun g => (f g, Returns tt).
Definition tell (e : event) : M unit := modify (log e).

Notation "'let*' x ':=' m 'in' k" := (bind m (fun x => k))
  (at level 10, x name, m at level 100, k at level 200).
Notation "m ';;' k" := (bind m (fun _ => k))
  (at level 100, k at level 200, right associativity).

(** Calling a hook: the call is recorded and the hook answers from the
    state it is called in. *)
Definition call {A} (c : hook_call) (h : Game -> A) : M A :=
  fun g => (log (Called c) g, Returns (h g)).

(** What the promise made by [.then] or [.catch] becomes once its handler
    has run: a returned promise is adopted, a thrown error rejects. *)
Definition settle (r : Game * completion jsret) : Game * completion (promise value) :=
  match r with
  | (g, Returns (Plain v)) => (g, Returns (Fulfilled v))
  | (g, Returns (Promised p)) => (g, Returns p)
  | (g, Throws e) => (g, Returns (Rejected e))
  | (g, Diverges) => (g, Diverges)
  end.

(** [p.then(k)] *)
Definition then_ {A} (p : promise A) (k : A -> M jsret) : M (promise value) :=
  fun g =>
    match p with
    | Fulfilled a => settle (k a g)
    | Rejected e => (g, Returns (Rejected e))
    | Pending => (g, Returns Pending)
    end.

(** [p.catch(k)] *)
Definition catch_ (p : promise value) (k : value -> M jsret) : M (promise value) :=
  fun g =>
    match p with
    | Fulfilled v => (g, Returns (Fulfilled v))
    | Rejected e => settle (k e g)
    | Pending => (g, Returns Pending)
    end.

(** ** The controller *)

(** [arr[i]] for a number [i]: [undefined] outside the array. *)
Definition lookupZ {A} (l : list A) (i : Z) : option A :=
  if i <? 0 then None else l !! Z.to_nat i.

(** [new Game(gameObj, room)] *)
Definition newGame (game_name : string) (room : list string) : Game :=
  mkGame room game_name []
    [("readyUp", VBool true); ("resultsTimeout", VNum 10000)]
    false [] (mkRound 0 []) (mkTurn 0 None) None room VUndefined [].

(** [this.players.find(p => p._id == id)]; no identifier [==] [undefined]. *)
Definition findPlayer (g : Game) (id : option string) : option Player :=
  match id with
  | Some i => List.find (fun p => String.eqb (_id p) i) (players g)
  | None => None
  end.

(** [new Player(player)]: only the identifier is taken over. *)
Definition createPlayer (player : string) : Player := mkPlayer player false.

(** [player.ready = true] on the player [findPlayer] returned. *)
Fixpoint mark_ready (id : string) (ps : list Player) : list Player :=
  match ps with
  | [] => []
  | p :: ps' =>
      if String.eqb (_id p) id then mkPlayer (_id p) true :: ps'
      else p :: mark_ready id ps'
  end.

(** [this.maxRounds && nextNum > this.maxRounds] *)
Definition maxRounds_exceeded (mr : option Z) (nextNum : Z) : bool :=
  match mr with
  | Some m => negb (m =? 0) && (nextNum >? m)
  | None => false
  end.

(** [this.findPlayer(this.playerOrder[this.turn.number - 1])] *)
Definition turn_player (g : Game) : option Player :=
  findPlayer g (lookupZ (playerOrder g) (t_number (turn g) - 1)).

Section Controller.

Variable rs : Rules.

Definition onEnd (payload : value) : M (promise value) :=
  match handleEnd rs with
  | None => throw TypeError
  | Some h =>
      let* p := call (CallHandleEnd payload) (fun g => h g payload) in
      then_ p (fun results =>
        modify (set_endResults results);;
        tell (Broadcast "game/end" results);;
        tell (Emit "end" results);;
        ret (Plain VUndefined))
  end.

Fixpoint startTurn (fuel : nat) (t : Z) {struct fuel} : M jsret :=
  match fuel with
  | O => diverge
  | S fuel' =>
      let* g := get in
      match findPlayer g (lookupZ (playerOrder g) (t - 1)) with
      | None => nextTurn fuel' true
      | Some player =>
          modify (set_turn (mkTurn t (Some (_id player))));;
          (if handleTurnStart rs
           then let* g := get in
                tell (Called (CallHandleTurnStart player (round g) (turn g)))
           else ret tt);;
          let* g := get in
          tell (Broadcast "game/turn"
                  (VObj [("round", round_value (round g));
                         ("turn", turn_value (turn g))]));;
          ret (Plain VUndefined)
      end
  end

with nextTurn (fuel : nat) (restart : bool) {struct fuel} : M jsret :=
  match fuel with
  | O => diverge
  | S fuel' =>
      let executeNextTurn : M jsret :=
        let* g := get in
        let nextNum := t_number (turn g) + 1 in
        if nextNum >? Z.of_nat (length (playerOrder g))
        then nextRound fuel'
        else startTurn fuel' nextNum in
      match restart, handleTurnEnd rs with
      | false, Some h =>
          let* g := get in
          let player := turn_player g in
          let* p := call (CallHandleTurnEnd player) (fun g => h g player) in
          let* q := then_ p (fun _ => executeNextTurn) in
          let* r := catch_ q (fun payload =>
                      if is_error payload
                      then tell (ConsoleLog payload);; ret (Plain VUndefined)
                      else onEnd payload;; ret (Plain VUndefined)) in
          ret (Promised r)
      | _, _ => executeNextTurn
      end
  end

with nextRound (fuel : nat) {struct fuel} : M jsret :=
  match fuel with
  | O => diverge
  | S fuel' =>
      let executeNextRound : M jsret :=
        let* g := get in
        let nextNum := r_number (round g) + 1 in
        if maxRounds_exceeded (maxRounds g) nextNum
        then let* p := onEnd VUndefined in ret (Promised p)
        else startRound fuel' nextNum in
      match handleRoundEnd rs with
      | Some h =>
          let* g := get in
          let* p := call (CallHandleRoundEnd (round g)) (fun g => h g (round g)) in
          let* q := then_ p (fun _ => executeNextRound) in
          let* r := catch_ q (fun _ =>
                      let* g := get in startRound fuel' (r_number (round g))) in
          ret (Promised r)
      | None => executeNextRound
      end
  end

with startRound (fuel : nat) (n : Z) {struct fuel} : M jsret :=
  match fuel with
  | O => diverge
  | S fuel' =>
      modify (set_round (mkRound n []));;
      match handleRoundStart rs with
      | Some h =>
          let* g := get in
          let* p := call (CallHandleRoundStart (round g)) (fun g => h g (round g)) in
          let* q := then_ p (fun r =>
                      modify (set_round r);;
                      startTurn fuel' 1;;
                      ret (Plain VUndefined)) in
          ret (Promised q)
      | None => startTurn fuel' 1
      end
  end.

Definition start (fuel : nat) : M unit :=
  modify (set_started true);;
  startRound fuel 1;;
  ret tt.

(** The inner function [executeReady] of [readyUp]. *)
Definition executeReady (fuel : nat) (player_id : string) : M unit :=
  modify (fun g => set_players (mark_ready player_id (players g)) g);;
  tell (Broadcast "game/player_ready" (VObj [("player_id", VStr player_id)]));;
  let* g := get in
  if (length (List.filter (fun p => negb (ready p)) (players g)) =? 0)%nat
  then start fuel
  else ret tt.

Definition readyUp (fuel : nat) (player_id : string) (payload : value) : M jsret :=
  let* g := get in
  if started g then ret (Plain (VBool false))
  else
    match findPlayer g (Some player_id) with
    | None => throw TypeError
    | Some player =>
        if ready player then ret (Plain (VBool false))
        else
          match handleReadyUp rs with
          | Some h =>
              let* handle := call (CallHandleReadyUp player_id payload)
                               (fun g => h g player_id payload) in
              match handle with
              | Promised p =>
                  let* q := then_ p (fun payload =>
                              executeReady fuel player_id;;
                              ret (Plain payload)) in
                  ret (Promised q)
              | Plain v =>
                  match get_prop v "then" with
                  | None => throw TypeError
                  | Some VUndefined =>
                      if truthy v
                      then executeReady fuel player_id;; ret (Plain v)
                      else ret (Plain v)
                  | Some _ => throw TypeError
                  end
              end
          | None =>
              executeReady fuel player_id;;
              ret (Plain (VBool true))
          end
    end.

(** The [.then] handler of [playerMove]: the move was accepted. *)
Definition recordMove (fuel : nat) (player : Player) (move : value) : M jsret :=
  let* g := get in
  let payload :=
    mkMove (_id player) (r_number (round g)) (t_number (turn g)) move in
  modify (set_moves (moves g ++ [payload]));;
  tell (Broadcast "game/move" (move_value payload));;
  nextTurn fuel false;;
  ret (Plain (move_value payload)).

Definition playerMove (fuel : nat) (player : Player) (move : value)
  : M (promise value) :=
  let* g := get in
  if truthy (endResults g) then
    ret (Rejected (VStr "Game has ended."))
  else if t_number (turn g) =? 0 then
    ret (Rejected (VStr "Game has not started."))
  else if negb (bool_decide (Some (_id player) = t_player_id (turn g))) then
    ret (Rejected (VStr "You are not allowed to send that right now."))
  else
    match handleMove rs with
    | None => throw TypeError
    | Some h =>
        let* p := call (CallHandleMove move) (fun g => h g move) in
        then_ p (recordMove fuel player)
    end.

(** The inner function [executeSetup] of [init]. *)
Definition executeSetup (fuel : nat) (new_settings : value) : M jsret :=
  modify (fun g => set_settings (object_assign (settings g) new_settings) g);;
  tell (BroadcastSecret "game/init");;
  match get_prop new_settings "readyUp" with
  | None => throw TypeError
  | Some r =>
      if strict_eq r (VBool false)
      then start fuel;; ret (Plain VUndefined)
      else ret (Plain VUndefined)
  end.

Definition init (fuel : nat) : M unit :=
  modify (fun g => set_players (map createPlayer (room_players g)) g);;
  match setup rs with
  | Some s =>
      let* gameSetup := call CallSetup s in
      match gameSetup with
      | Promised p => then_ p (executeSetup fuel);; ret tt
      | Plain v =>
          match get_prop v "then" with
          | None => throw TypeError
          | Some VUndefined => executeSetup fuel v;; ret tt
          | Some _ => throw TypeError
          end
      end
  | None => start fuel
  end.

End Controller.

(** ** Turn order *)

(** [[arr[a], arr[b]] = [arr[b], arr[a]]]; both indices are inside the
    array wherever [shuffle] swaps. *)
Definition swap {A} (arr : list A) (a b : nat) : list A :=
  match arr !! a, arr !! b with
  | Some x, Some y => <[b := x]> (<[a := y]> arr)
  | _, _ => arr
  end.

Section Shuffle.

(** [Math.floor(Math.random() * i)], a number below [i], for each [i]. *)
Variable random : nat -> nat.

Fixpoint shuffle_from {A} (i : nat) (arr : list A) : list A :=
  match i with
  | O => arr
  | S i' => shuffle_from i' (swap arr i' (random i mod i)%nat)
  end.

Definition shuffle {A} (arr : list A) : list A :=
  shuffle_from (length arr) arr.

End Shuffle.

(** The argument of [setPlayerTurnOrder]: an array of identifiers, or any
    other value. *)
Inductive order_arg : Type :=
| OrderArray (ids : list string)
| OrderValue (v : value).

Section TurnOrder.

(** [PLAYER_ORDER.RANDOM] of the constants module. *)
Variable PLAYER_ORDER_RANDOM : value.
Variable random : nat -> nat.

Definition setPlayerTurnOrder (order : order_arg) (g : Game) : Game :=
  match order with
  | OrderArray ids => set_playerOrder ids g
  | OrderValue v =>
      let ps :=
        if strict_eq v PLAYER_ORDER_RANDOM
        then shuffle random (players g)
        else players g in
      set_playerOrder (map _id ps) g
  end.

End TurnOrder.

(** * Predicates of the specification *)

(** [preserves P m]: running [m] from a state in [P] ends in a state in
    [P], however [m] completes. *)
Definition preserves {A} (P : Game -> Prop) (m : M A) : Prop :=
  forall g, P g -> P (m g).1.

(** [turn.player_id] is [playerOrder[turn.number - 1]] once a turn runs. *)
Definition turn_inv (g : Game) : Prop :=
  0 < t_number (turn g) ->
  t_player_id (turn g) = lookupZ (playerOrder g) (t_number (turn g) - 1).

(** The trace of [g] continues [tr]. *)
Definition extends (tr : list event) (g : Game) : Prop :=
  exists rest, trace g = tr ++ rest.

(** Every field of the serialized state ([toJSON]) is the same in both. *)
Definition unchanged (g g' : Game) : Prop :=
  name g' = name g /\ players g' = players g /\ settings g' = settings g /\
  started g' = started g /\ moves g' = moves g /\ round g' = round g /\
  turn g' = turn g /\ maxRounds g' = maxRounds g /\
  playerOrder g' = playerOrder g /\ endResults g' = endResults g.

(** The states of a game's life: constructed, then any of the methods of
    the controller, with [setPlayerTurnOrder] while no turn runs yet. *)
Inductive reachable (rs : Rules) (RANDOM : value) : Game -> Prop :=
| reach_new game_name room :
    reachable rs RANDOM (newGame game_name room)
| reach_init fuel g :
    reachable rs RANDOM g -> reachable rs RANDOM (init rs fuel g).1
| reach_setPlayerTurnOrder random order g :
    reachable rs RANDOM g -> t_number (turn g) = 0 ->
    reachable rs RANDOM (setPlayerTurnOrder RANDOM random order g)
| reach_readyUp fuel player_id payload g :
    reachable rs RANDOM g ->
    reachable rs RANDOM (readyUp rs fuel player_id payload g).1
| reach_playerMove fuel player move g :
    reachable rs RANDOM g ->
    reachable rs RANDOM (playerMove rs fuel player move g).1
| reach_start fuel g :
    reachable rs RANDOM g -> reachable rs RANDOM (start rs fuel g).1
| reach_startRound fuel n g :
    reachable rs RANDOM g -> reachable rs RANDOM (startRound rs fuel n g).1
| reach_nextRound fuel g :
    reachable rs RANDOM g -> reachable rs RANDOM (nextRound rs fuel g).1
| reach_startTurn fuel t g :
    reachable rs RANDOM g -> reachable rs RANDOM (startTurn rs fuel t g).1
| reach_nextTurn fuel restart g :
    reachable rs RANDOM g -> reachable rs RANDOM (nextTurn rs fuel restart g).1
| reach_onEnd payload g :
    reachable rs RANDOM g -> reachable rs RANDOM (onEnd rs payload g).1.

(** A round-start hook that hands back a round with the number it got. *)
Definition keeps_number (rs : Rules) : Prop :=
  forall hs, handleRoundStart rs = Some hs ->
  forall g r, exists r', hs g r = Fulfilled r' /\ r_number r' = r_number r.

(** What [handleReadyUp] has to return for [readyUp] to mark the player:
    a truthy value that is not a thenable, or a promise that fulfils. *)
Definition accepts (r : jsret) : Prop :=
  match r with
  | Plain v => get_prop v "then" = Some VUndefined /\ truthy v = true
  | Promised p => exists v, p = Fulfilled v
  end.

(** A series of [readyUp] calls, each given by identifier and payload. *)
Definition readyUps (rs : Rules) (fuel : nat) (calls : list (string * value))
  (g : Game) : Game :=
  fold_left (fun g c => (readyUp rs fuel c.1 c.2 g).1) calls g.

(** The player [p] with the ready flag of those listed in [done]. *)
Definition with_ready (done : list string) (p : Player) : Player :=
  mkPlayer (_id p) (bool_decide (_id p ∈ done)).

(** The rule set [rs] with another turn-end hook. *)
Definition set_handleTurnEnd (h : option (Game -> option Player -> promise unit))
  (rs : Rules) : Rules :=
  mkRules (setup rs) (handleReadyUp rs) (handleMove rs) (handleTurnStart rs)
    h (handleRoundStart rs) (handleRoundEnd rs) (handleEnd rs).

(** * Example games *)

(** The game of the repository's tests: no ready-up phase; moves and end
    payloads are accepted as they come. *)
Definition testRules : Rules :=
  mkRules (Some (fun _ => Plain (VObj [("readyUp", VBool false)]))) None
    (Some (fun _ payload => Fulfilled payload)) false None None None
    (Some (fun _ payload => Fulfilled payload)).

(** The same game with a turn-end hook and its own end results. *)
Definition turnEndRules (turn_end : promise unit) (results : value) : Rules :=
  mkRules (setup testRules) None (handleMove testRules) false
    (Some (fun _ _ => turn_end)) None None
    (Some (fun _ _ => Fulfilled results)).

(** The same game with a round-end hook. *)
Definition roundEndRules (round_end : promise unit) : Rules :=
  mkRules (setup testRules) None (handleMove testRules) false
    None None (Some (fun _ _ => round_end)) (handleEnd testRules).

(** A game with a round-end hook whose rounds are die rolls, as the README
    describes the first round of Monopoly. *)
Definition dieRollRules (round_end : promise unit) : Rules :=
  mkRules (setup testRules) None (handleMove testRules) true None
    (Some (fun _ r => Fulfilled (mkRound (r_number r) [("type", VStr "die_roll")])))
    (Some (fun _ _ => round_end)) (handleEnd testRules).

(** A game that refuses every move, as the README's game refuses a guess. *)
Definition refusingRules : Rules :=
  mkRules (setup testRules) None
    (Some (fun _ _ => Rejected (VStr "Invalid guess!"))) false None None None
    (handleEnd testRules).

(** A game with the ready-up phase, as in the tests: [setup] returns an
    empty settings object and there is no [handleReadyUp]. *)
Definition readyRules : Rules :=
  mkRules (Some (fun _ => Plain (VObj []))) None
    (handleMove testRules) false None None None (handleEnd testRules).

(** The game with the ready-up phase and a [handleReadyUp] that returns the
    plain value [v]. *)
Definition plainReadyRules (v : value) : Rules :=
  mkRules (setup readyRules) (Some (fun _ _ _ => Plain v))
    (handleMove testRules) false None None None (handleEnd testRules).

Definition player1 : Player := mkPlayer "1" false.
Definition player2 : Player := mkPlayer "2" false.

(** Two players in the room: just constructed, after [init], and after the
    end sequence. *)
Definition fresh2 : Game := newGame "test" ["1"; "2"].
Definition playing2 : Game := (init testRules 3 fresh2).1.
Definition ended2 : Game := (onEnd testRules (VObj []) playing2).1.

(** Two players in the room, after [init] with the ready-up phase. *)
Definition waiting2 : Game := (init readyRules 3 fresh2).1.

(** * The life of a game *)

(** One call of a method of the controller, with any arguments. *)
Inductive method_call (rs : Rules) (RANDOM : value) : Game -> Game -> Prop :=
| call_init fuel g :
    method_call rs RANDOM g (init rs fuel g).1
| call_setPlayerTurnOrder random order g :
    method_call rs RANDOM g (setPlayerTurnOrder RANDOM random order g)
| call_readyUp fuel player_id payload g :
    method_call rs RANDOM g (readyUp rs fuel player_id payload g).1
| call_playerMove fuel player move g :
    method_call rs RANDOM g (playerMove rs fuel player move g).1
| call_start fuel g :
    method_call rs RANDOM g (start rs fuel g).1
| call_startRound fuel n g :
    method_call rs RANDOM g (startRound rs fuel n g).1
| call_nextRound fuel g :
    method_call rs RANDOM g (nextRound rs fuel g).1
| call_startTurn fuel t g :
    method_call rs RANDOM g (startTurn rs fuel t g).1
| call_nextTurn fuel restart g :
    method_call rs RANDOM g (nextTurn rs fuel restart g).1
| call_onEnd payload g :
    method_call rs RANDOM g (onEnd rs payload g).1.

(** Any number of calls, one after the other. *)
Inductive lifetime (rs : Rules) (RANDOM : value) : Game -> Game -> Prop :=
| life_same g : lifetime rs RANDOM g g
| life_call g1 g2 g3 :
    method_call rs RANDOM g1 g2 -> lifetime rs RANDOM g2 g3 ->
    lifetime rs RANDOM g1 g3.

(** The entry [playerMove] records for [player] when [handleMove] resolves
    to [payload] in the state [g]. *)
Definition recorded (player : Player) (payload : value) (g : Game) : Move :=
  mkMove (_id player) (r_number (round g)) (t_number (turn g)) payload.

(** What turn and round advancement leaves alone. *)
Definition same_setup (g g' : Game) : Prop :=
  name g' = name g /\ players g' = players g /\ settings g' = settings g /\
  started g' = started g /\ moves g' = moves g /\
  maxRounds g' = maxRounds g /\ playerOrder g' = playerOrder g.

(** The player [p] after a ready-up of [id]: as before, or, when [id] is
    the player's identifier, ready. *)
Definition readied (id : string) (p p' : Player) : Prop :=
  p' = p \/ (_id p = id /\ p' = mkPlayer (_id p) true).

(** The state in which [playerMove] advances the turn after it has
    recorded the payload [v]. *)
Definition move_recorded (player : Player) (move v : value) (g : Game) : Game :=
  log (Broadcast "game/move" (move_value (recorded player v g)))
    (set_moves (moves g ++ [recorded player v g])
       (log (Called (CallHandleMove move)) g)).




(** The game with the ready-up phase and a [handleReadyUp] that returns the
    promise [p]. *)
Definition promiseReadyRules (p : promise value) : Rules :=
  mkRules (setup readyRules) (Some (fun _ _ _ => Promised p))
    (handleMove testRules) false None None None (handleEnd testRules).

(** [readyUp] goes on to mark the player: there is no [handleReadyUp], or
    what it returns is accepted. *)
Definition ready_accepted (rs : Rules) (id : string) (payload : value)
  (g : Game) : Prop :=
  match handleReadyUp rs with
  | Some h => accepts (h g id payload)
  | None => True
  end.

(** The turn-end hook, if there is one, resolves. *)
Definition turn_end_resolves (rs : Rules) : Prop :=
  forall he, handleTurnEnd rs = Some he -> forall g p, he g p = Fulfilled tt.

(** A game whose rounds cannot be started: [handleRoundStart] rejects with
    [reason]. The turn-end hook, if asked for, resolves. *)
Definition closedRules (turn_end : bool) (reason : value) : Rules :=
  mkRules (setup testRules) None (handleMove testRules) false
    (if turn_end then Some (fun _ _ => Fulfilled tt) else None)
    (Some (fun _ _ => Rejected reason)) None (handleEnd testRules).

(** A game limited to one round whose [handleEnd] is missing or rejects. *)
Definition endlessRules (handle_end : option (Game -> value -> promise value))
  : Rules :=
  mkRules (setup testRules) None (handleMove testRules) false
    None None (Some (fun _ _ => Fulfilled tt)) handle_end.
Definition lastRound2 : Game := set_maxRounds (Some 1) playing2.

(** * [Player.js]: rolling dice *)





(** * [Playlist.js]: the games a room plays *)

Module Playlist.

Section Games.

Context {A : Type}.

Record t : Type := mk { games : list A; index : Z }.

(** What [next] returns: a game, [false], or [undefined]. *)
Inductive answer : Type :=
| NextGame (game : A)
| NextFalse
| NextUndefined.

(** [new Playlist()] *)
Definition new : t := mk [] (-1).

(** [add(game)] *)
Definition add (game : A) (pl : t) : t * bool :=
  if (length (games pl) =? 10)%nat then (pl, false)
  else (mk (games pl ++ [game]) (index pl), true).

(** [next()] *)
Definition next (pl : t) : t * answer :=
  let pl' := mk (games pl) (index pl + 1) in
  if index pl' =? Z.of_nat (length (games pl')) then (pl', NextFalse)
  else (pl', match lookupZ (games pl') (index pl') with
             | Some game => NextGame game
             | None => NextUndefined
             end).

(** A series of [add] calls, and [n] calls of [next]. *)
Definition adds (gs : list A) (pl : t) : t :=
  fold_left (fun pl game => (add game pl).1) gs pl.
Fixpoint nexts (n : nat) (pl : t) : t :=
  match n with
  | O => pl
  | S n' => nexts n' (next pl).1
  end.

End Games.

Arguments t A : clear implicits.
Arguments answer A : clear implicits.

End Playlist.

(** * [Room.js]: the players' room

    Conventions of this part of the embedding:
    - A player is the object the platform hands to the room, with its
      [_id], [username] and [rooms]; it has no numeric value, so a
      conversion of it to a number gives [NaN].
    - The settings are typed: [privacy] and [mode] are strings,
      [player_limit] is an integer, [password] is [null] or a string. A
      settings object passed in has each of them or not.
    - The identifiers [shortid] generates are arguments.
    - A game on the playlist is its [name] and its [min_players], if it
      has any.
    - What the room sends to its sockets, and the sockets that join and
      leave, are appended to the room's [trace]; what a running game
      broadcasts is in the game's own trace. *)

Module Room.

Record Member : Type := mkMember {
  _id : string;
  username : string;
  rooms : list string
}.

Record GameObj : Type := mkGameObj {
  g_name : string;
  min_players : option Z
}.

Record Settings : Type := mkSettings {
  privacy : string;
  mode : string;
  player_limit : Z;
  password : option string
}.

(** A settings object given to the constructor or to [updateSettings]. *)
Record Changes : Type := mkChanges {
  to_privacy : option string;
  to_mode : option string;
  to_player_limit : option Z;
  to_password : option string
}.

(** [this.game]: the game that [start] constructed, with the class the
    loader returned for it. *)
Record Attached : Type := mkAttached {
  gameObj : GameObj;
  rules : Rules;
  state : Game
}.

(** What [toJSON] returns: no [id], no [game], and the settings without
    the password. [addPlayer] adds the game as the player sees it. *)
Record View : Type := mkView {
  v_name : string;
  v_code : string;
  v_host : string;
  v_players : list Member;
  v_playlist : Playlist.t GameObj;
  v_privacy : string;
  v_mode : string;
  v_player_limit : Z;
  v_game : option Game
}.

Inductive payload : Type :=
| Nothing
| ThePlayer (player : Member)                   (* { player } *)
| TheChanges (room : View) (change : string)    (* { room, changes } *)
| ThePlaylist (playlist : Playlist.t GameObj).  (* { playlist } *)

Inductive event : Type :=
| Sent (name : string) (p : payload)   (* this.broadcast *)
| Joined                               (* socket.join(this.ioRoom) *)
| Left.                                (* socket.leave(this.ioRoom) *)

Record t : Type := mk {
  name : string;
  host : string;
  players : list Member;
  playlist : Playlist.t GameObj;
  settings : Settings;
  id : string;
  code : string;
  game : option Attached;
  trace : list event
}.

Definition set_name (v : string) (r : t) : t :=
  mk v (host r) (players r) (playlist r) (settings r) (id r) (code r) (game r)
    (trace r).
Definition set_host (v : string) (r : t) : t :=
  mk (name r) v (players r) (playlist r) (settings r) (id r) (code r) (game r)
    (trace r).
Definition set_players (v : list Member) (r : t) : t :=
  mk (name r) (host r) v (playlist r) (settings r) (id r) (code r) (game r)
    (trace r).
Definition set_playlist (v : Playlist.t GameObj) (r : t) : t :=
  mk (name r) (host r) (players r) v (settings r) (id r) (code r) (game r)
    (trace r).
Definition set_settings (v : Settings) (r : t) : t :=
  mk (name r) (host r) (players r) (playlist r) v (id r) (code r) (game r)
    (trace r).
Definition set_code (v : string) (r : t) : t :=
  mk (name r) (host r) (players r) (playlist r) (settings r) (id r) v (game r)
    (trace r).
Definition set_game (v : option Attached) (r : t) : t :=
  mk (name r) (host r) (players r) (playlist r) (settings r) (id r) (code r) v
    (trace r).
Definition log (e : event) (r : t) : t :=
  mk (name r) (host r) (players r) (playlist r) (settings r) (id r) (code r)
    (game r) (trace r ++ [e]).

(** [if(s)] for a string that may be missing. *)
Definition given (s : option string) : bool :=
  match s with
  | Some s => negb (String.eqb s "")
  | None => false
  end.

(** [new Room(name, host, settings, io)]; [id] and [code] are the two
    identifiers generated. *)
Definition new (name : string) (host : Member) (settings : Changes)
  (id code : string) : t :=
  mk name (_id host) [] Playlist.new
    (mkSettings (default "public" (to_privacy settings))
       (default "party" (to_mode settings))
       (default 16 (to_player_limit settings))
       (to_password settings))
    id code None [].

(** [toJSON()] *)
Definition toJSON (r : t) : View :=
  mkView (name r) (code r) (host r) (players r) (playlist r)
    (privacy (settings r)) (mode (settings r)) (player_limit (settings r)) None.

(** [this.players.find(p => p._id == id)] *)
Definition find (player_id : string) (r : t) : option Member :=
  List.find (fun p => String.eqb (_id p) player_id) (players r).

(** [addPlayer(player, socket, password = null)] *)
Definition addPlayer (player : Member) (pw : option string) (r : t)
  : t * promise View :=
  let exists_ := find (_id player) r in
  if Z.of_nat (length (players r)) =? player_limit (settings r) then
    (r, Rejected (VStr "Room is full."))
  else if String.eqb (privacy (settings r)) "private" && negb (given pw) then
    (r, Rejected (VStr "Room is private. Password required to enter."))
  else if String.eqb (privacy (settings r)) "private"
          && negb (bool_decide (password (settings r) = pw)) then
    (r, Rejected (VStr "Incorrect password."))
  else
    let joined :=
      match exists_ with
      | None => mkMember (_id player) (username player) (rooms player ++ [id r])
      | Some _ => player
      end in
    let r1 :=
      match exists_ with
      | None => set_players (players r ++ [joined]) r
      | Some _ => r
      end in
    let r2 := log Joined r1 in
    let roomForPlayer :=
      match game r2 with
      | Some a =>
          mkView (name r2) (code r2) (host r2) (players r2) (playlist r2)
            (privacy (settings r2)) (mode (settings r2))
            (player_limit (settings r2)) (Some (state a))
      | None => toJSON r2
      end in
    let r3 :=
      if (1 <? length (players r2))%nat
      then log (Sent "player_join" (ThePlayer joined)) r2
      else r2 in
    (r3, Fulfilled roomForPlayer).

(** [index === -1], [index] being what [find] returned: an object or
    [undefined], never the number. *)
Definition is_minus_one (index : option Member) : bool := false.

(** The number [splice] makes of its first argument: an object and
    [undefined] convert to [NaN], which counts as 0. *)
Definition to_integer (index : option Member) : Z := 0.

(** [index > -1]: [NaN > -1] is [false]. *)
Definition above_minus_one (index : option Member) : bool := false.

(** [arr.splice(start, 1)] for an integer [start]: a negative [start]
    counts from the end. *)
Definition splice_one {A} (start : Z) (arr : list A) : list A :=
  let len := Z.of_nat (length arr) in
  let from := if start <? 0 then Z.max (len + start) 0 else Z.min start len in
  delete (Z.to_nat from) arr.

(** [destroy()] and [handlePlayerLeave(player)] of the game, which reads
    the room's players and its own [gameObj]. *)
Definition destroy (r : t) : t := log (Sent "game/destroy" Nothing) r.
Definition handlePlayerLeave (a : Attached) (r : t) : t :=
  match min_players (gameObj a) with
  | Some m => if Z.of_nat (length (players r)) <? m then destroy r else r
  | None => r
  end.

(** [removePlayer(player, socket)]. The rooms of a player hold room
    identifiers, on which [r.id] is [undefined]: the [find] over them
    finds nothing and they are left as they are. *)
Definition removePlayer (player : Member) (r : t) : t * promise bool :=
  let index := find (_id player) r in
  if is_minus_one index then (r, Rejected (VStr "Not in room."))
  else
    let r1 := set_players (splice_one (to_integer index) (players r)) r in
    let r2 := log Left r1 in
    let r3 :=
      match game r2 with
      | Some a => if -1 <? Playlist.index (playlist r2)
                  then handlePlayerLeave a r2 else r2
      | None => r2
      end in
    let r4 :=
      if (0 <? length (players r3))%nat
      then log (Sent "player_leave" (ThePlayer player)) r3
      else r3 in
    (r4, Fulfilled (above_minus_one index)).

(** [setName(name)] *)
Definition setName (new_name : string) (r : t) : t :=
  let r1 := set_name new_name r in
  log (Sent "room/update_settings"
         (TheChanges (toJSON r1) ("Room name changed to " +:+ new_name +:+ ".")))
    r1.

(** [changeHost(player_id)]. [find] returns [undefined] when it finds
    nothing, which is not [=== null]. *)
Definition changeHost (player_id : string) (r : t)
  : t * completion (promise Member) :=
  let oldHost := find (host r) r in
  let newHost := find player_id r in
  match newHost with
  | None => (r, Throws TypeError)
  | Some new_host =>
      let r1 := set_host (_id new_host) r in
      match oldHost with
      | None => (r1, Throws TypeError)
      | Some old_host =>
          (log (Sent "room/update_settings"
                  (TheChanges (toJSON r1)
                     (username old_host +:+ " made " +:+ username new_host
                      +:+ " the host.")))
             r1,
           Returns (Fulfilled new_host))
      end
  end.

(** [updateSettings(settings)]; [fresh] is the code generated if one is. *)
Definition updateSettings (fresh : string) (c : Changes) (r : t) : t :=
  let r1 :=
    match to_privacy c with
    | Some p =>
        if negb (String.eqb p "") && negb (String.eqb p (privacy (settings r)))
        then set_settings
               (mkSettings p (mode (settings r)) (player_limit (settings r))
                  (password (settings r)))
               (set_code fresh r)
        else r
    | None => r
    end in
  let r2 :=
    if given (to_password c) && String.eqb (privacy (settings r1)) "private"
    then set_settings
           (mkSettings (privacy (settings r1)) (mode (settings r1))
              (player_limit (settings r1)) (to_password c))
           r1
    else r1 in
  match to_player_limit c with
  | Some n =>
      if negb (n =? 0)
      then set_settings
             (mkSettings (privacy (settings r2)) (mode (settings r2)) n
                (password (settings r2)))
             r2
      else r2
  | None => r2
  end.

(** [addGame(game)] *)
Definition addGame (game : GameObj) (r : t) : t :=
  let r1 := set_playlist (Playlist.add game (playlist r)).1 r in
  log (Sent "room/update_playlist" (ThePlaylist (playlist r1))) r1.

Section Start.

(** [slugify(name, {remove, lower})] of the slugify package. *)
Variable slugify : string -> string.

(** [start(gameLoader)]. The timer set at a game's end calls [start()],
    without a loader. What [start] returns is [false] or [undefined]. *)
Definition start (gameLoader : option (string -> Rules)) (fuel : nat) (r : t)
  : t * completion value :=
  let r1 := set_playlist (Playlist.next (playlist r)).1 r in
  match (Playlist.next (playlist r)).2 with
  | Playlist.NextGame plGame =>
      let gameName := slugify (g_name plGame) in
      match gameLoader with
      | None => (r1, Throws TypeError)
      | Some load =>
          let run := init (load gameName) fuel
                       (newGame (g_name plGame) (map _id (players r1))) in
          let r2 := set_game (Some (mkAttached plGame (load gameName) run.1)) r1 in
          match run.2 with
          | Returns _ =>
              (log (Sent "room/update_playlist" (ThePlaylist (playlist r2))) r2,
               Returns VUndefined)
          | Throws e => (r2, Throws e)
          | Diverges => (r2, Diverges)
          end
      end
  | _ => (log (Sent "room/playlist_end" Nothing) r1, Returns (VBool false))
  end.

End Start.

(** A series of [addPlayer] calls without passwords. *)
Definition addPlayers (ps : list Member) (r : t) : t :=
  fold_left (fun r p => (addPlayer p None r).1) ps r.

End Room.

(** ** A room for the examples: two members, as in the tests *)

Definition abc : Room.Member := Room.mkMember "1" "abc" [].
Definition def : Room.Member := Room.mkMember "2" "def" [].
Definition ghi : Room.Member := Room.mkMember "3" "ghi" [].
Definition no_changes : Room.Changes := Room.mkChanges None None None None.
Definition mockRoom : Room.t :=
  Room.addPlayers [abc; def]
    (Room.new "Mock" abc no_changes "room" "code").
Definition secretRoom : Room.t :=
  Room.new "Mock" abc
    (Room.mkChanges (Some "private") None None (Some "secret")) "room" "code".

(** The room of two after its limit has been lowered to one. *)
Definition crowdedRoom : Room.t :=
  Room.updateSettings "code2" (Room.mkChanges None None (Some 1) None) mockRoom.

(** The room of two with ["test"] on its playlist, not started; the
    platform's loader and slug. *)
Definition testGame : Room.GameObj := Room.mkGameObj "test" None.
Definition readyRoom : Room.t := Room.addGame testGame mockRoom.
Definition loadTest (game_name : string) : Rules := testRules.
Definition slug (game_name : string) : string := game_name.

(** The room of two playing a game that needs two players. *)
Definition duelGame : Room.GameObj := Room.mkGameObj "test" (Some 2).
Definition duelRoom : Room.t :=
  (Room.start slug (Some loadTest) 3 (Room.addGame duelGame mockRoom)).1.
(** * Properties *)

(** ** The tests of the repository, run on the embedding *)

(** "should accept details and a room and return a Game with players" *)
Example test_init_players :
  name (init (mkRules None None None false None None None None) 3
          (newGame "test" ["1"])).1 = "test" /\
  map _id (players (init (mkRules None None None false None None None None) 3
                      (newGame "test" ["1"])).1) = ["1"].
Proof. split; reflexivity. Qed.

(** "should accept a custom player turn order" *)
Example test_custom_order :
  playerOrder (setPlayerTurnOrder (VStr "random") (fun _ => 0%nat)
                 (OrderArray ["2"; "1"]) playing2) = ["2"; "1"].
Proof. reflexivity. Qed.

(** "should find a player by a given id" *)
Example test_findPlayer :
  _id <$> findPlayer playing2 (Some "1") = Some "1".
Proof. reflexivity. Qed.

(** "should mark a player as ready up" *)
Example test_readyUp_marks :
  (readyUp readyRules 3 "1" (VObj []) waiting2).2 = Returns (Plain (VBool true)) /\
  ready <$> players (readyUp readyRules 3 "1" (VObj []) waiting2).1 !! 0%nat
  = Some true.
Proof. split; reflexivity. Qed.

(** "should start when all players are ready" *)
Example test_start_when_all_ready :
  started (readyUps readyRules 3 [("1", VObj []); ("2", VObj [])] waiting2) = true.
Proof. reflexivity. Qed.

(** "should accept a move from the player when it is their turn" *)
Example test_accept_move :
  (playerMove testRules 4 player1 (VObj [("guess", VStr "hangman")])
     (init testRules 3 (newGame "test" ["1"])).1).2
  = Returns (Fulfilled (VObj [("player_id", VStr "1"); ("round", VNum 1);
                              ("turn", VNum 1);
                              ("payload", VObj [("guess", VStr "hangman")])])).
Proof. reflexivity. Qed.

(** "should deny a player from moving when it is not their turn" *)
Example test_deny_other_player :
  (playerMove testRules 3 player2 (VObj [("guess", VStr "hangman")])
     (setPlayerTurnOrder (VStr "random") (fun _ => 0%nat)
        (OrderArray ["1"; "2"]) playing2)).2
  = Returns (Rejected (VStr "You are not allowed to send that right now.")).
Proof. reflexivity. Qed.

(** "should deny a player from moving before the game has started" *)
Example test_deny_before_start :
  (playerMove testRules 3 player1 (VObj [("guess", VStr "hangman")])
     (newGame "test" ["1"])).2
  = Returns (Rejected (VStr "Game has not started.")).
Proof. reflexivity. Qed.

(** "should deny a player from moving if the game has ended" *)
Example test_deny_after_end :
  (playerMove testRules 3 player1 (VObj [("guess", VStr "hangman")])
     (onEnd testRules (VObj []) (init testRules 3 (newGame "test" ["1"])).1).1).2
  = Returns (Rejected (VStr "Game has ended.")).
Proof. reflexivity. Qed.

(** One player and a [setup] that returns [{ readyUp: false }]: [init]
    starts the game and turn 1 without any ready-up. *)
Example test_init_without_readyUp :
  started (init testRules 3 (newGame "test" ["1"])).1 = true /\
  turn (init testRules 3 (newGame "test" ["1"])).1 = mkTurn 1 (Some "1").
Proof. split; reflexivity. Qed.

(** Two players and the ready-up phase: after the first ready-up the game
    has not started, after the second it has, and the turn is the turn of
    the first player in the order. *)
Example test_readyUp_two_players :
  started (readyUps readyRules 3 [("1", VObj [])] waiting2) = false /\
  t_player_id (turn (readyUps readyRules 3 [("1", VObj []); ("2", VObj [])] waiting2))
  = playerOrder waiting2 !! 0%nat.
Proof. split; reflexivity. Qed.

(** The shuffle of [helpers/shuffle.js] on four entries, when every draw
    of [Math.random] is 0 and when the draws are 3, 0, 1 and 0. *)
Example test_shuffle :
  shuffle (fun _ => 0%nat) ["a"; "b"; "c"; "d"] = ["b"; "c"; "d"; "a"] /\
  shuffle (fun i => match i with 4 => 3 | 2 => 1 | _ => 0 end%nat)
    ["a"; "b"; "c"; "d"] = ["c"; "b"; "a"; "d"].
Proof. split; reflexivity. Qed.

(** ** Reasoning about computations *)

Section PreservesRules.

Context {P : Game -> Prop}.

Lemma preserves_ret {A} (a : A) : preserves P (ret a).
Proof. intros g Hg; exact Hg. Qed.

Lemma preserves_throw {A} (e : value) : preserves P (@throw A e).
Proof. intros g Hg; exact Hg. Qed.

Lemma preserves_diverge {A} : preserves P (@diverge A).
Proof. intros g Hg; exact Hg. Qed.

Lemma preserves_get : preserves P get.
Proof. intros g Hg; exact Hg. Qed.

Lemma preserves_modify (f : Game -> Game) :
  (forall g, P g -> P (f g)) -> preserves P (modify f).
Proof. intros Hf g Hg; apply Hf, Hg. Qed.

Lemma preserves_bind {A B} (m : M A) (k : A -> M B) :
  preserves P m -> (forall a, preserves P (k a)) -> preserves P (bind m k).
Proof.
  intros Hm Hk g Hg. unfold bind.
  specialize (Hm g Hg). destruct (m g) as [g1 [a| |]]; simpl in *; auto.
  apply Hk, Hm.
Qed.

(** [get] hands the current state to the continuation. *)
Lemma preserves_bind_get {B} (k : Game -> M B) :
  (forall g, P g -> P (k g g).1) -> preserves P (bind get k).
Proof. intros Hk g Hg. unfold bind, get. apply Hk, Hg. Qed.

Lemma preserves_settle (r : Game * completion jsret) :
  P r.1 -> P (settle r).1.
Proof. destruct r as [g [[v|p]| |]]; simpl; auto. Qed.

Lemma preserves_then {A} (p : promise A) (k : A -> M jsret) :
  (forall a, preserves P (k a)) -> preserves P (then_ p k).
Proof.
  intros Hk g Hg. destruct p; simpl; auto.
  apply preserves_settle, Hk, Hg.
Qed.

Lemma preserves_catch (p : promise value) (k : value -> M jsret) :
  (forall e, preserves P (k e)) -> preserves P (catch_ p k).
Proof.
  intros Hk g Hg. destruct p; simpl; auto.
  apply preserves_settle, Hk, Hg.
Qed.

Section Stable.

(** The writes the controller makes once a game runs: the trace, the
    round, the end results, and the turn of a player that was found at
    the turn's place in the order. *)
Hypothesis P_log : forall e g, P g -> P (log e g).
Hypothesis P_round : forall r g, P g -> P (set_round r g).
Hypothesis P_endResults : forall v g, P g -> P (set_endResults v g).
Hypothesis P_turn : forall t p g,
  P g -> findPlayer g (lookupZ (playerOrder g) (t - 1)) = Some p ->
  P (set_turn (mkTurn t (Some (_id p))) g).

Variable rs : Rules.

Lemma preserves_tell e : preserves P (tell e).
Proof. apply preserves_modify; auto. Qed.

Lemma preserves_call {A} c (h : Game -> A) : preserves P (call c h).
Proof. intros g Hg. simpl. auto. Qed.

Lemma preserves_onEnd payload : preserves P (onEnd rs payload).
Proof.
  unfold onEnd. destruct (handleEnd rs) as [h|]; [|apply preserves_throw].
  apply preserves_bind; [apply preserves_call|]. intros p.
  apply preserves_then. intros results.
  repeat (apply preserves_bind; intros);
    auto using preserves_modify, preserves_tell, preserves_ret.
Qed.

Lemma preserves_lifecycle fuel :
  (forall t, preserves P (startTurn rs fuel t)) /\
  (forall b, preserves P (nextTurn rs fuel b)) /\
  preserves P (nextRound rs fuel) /\
  (forall n, preserves P (startRound rs fuel n)).
Proof.
  induction fuel as [|fuel (IHst & IHnt & IHnr & IHsr)].
  { repeat split; intros; apply preserves_diverge. }
  assert (HnextT : preserves P
            (let* g := get in
             if t_number (turn g) + 1 >? Z.of_nat (length (playerOrder g))
             then nextRound rs fuel
             else startTurn rs fuel (t_number (turn g) + 1))).
  { apply preserves_bind_get. intros g Hg.
    destruct (_ >? _); [apply IHnr | apply IHst]; exact Hg. }
  assert (HnextR : preserves P
            (let* g := get in
             if maxRounds_exceeded (maxRounds g) (r_number (round g) + 1)
             then let* p := onEnd rs VUndefined in ret (Promised p)
             else startRound rs fuel (r_number (round g) + 1))).
  { apply preserves_bind_get. intros g Hg.
    destruct (maxRounds_exceeded _ _); [|apply IHsr; exact Hg].
    apply preserves_bind; [apply preserves_onEnd| |exact Hg].
    intros; apply preserves_ret. }
  repeat split.
  - intros t. cbn [startTurn]. apply preserves_bind_get. intros g Hg.
    destruct (findPlayer g _) as [player|] eqn:Hfind; [|apply IHnt, Hg].
    apply (P_turn t) in Hfind; [|exact Hg].
    unfold bind at 1. unfold modify at 1.
    revert Hfind. generalize (set_turn (mkTurn t (Some (_id player))) g).
    clear g Hg. intros g Hg.
    apply preserves_bind; [| |exact Hg].
    { destruct (handleTurnStart rs); [|apply preserves_ret].
      apply preserves_bind_get. intros; apply preserves_tell; auto. }
    intros _. apply preserves_bind_get. intros g' Hg'.
    apply preserves_bind; [apply preserves_tell| |exact Hg'].
    intros; apply preserves_ret.
  - intros b. cbn [nextTurn].
    destruct b; [exact HnextT|].
    destruct (handleTurnEnd rs) as [h|]; [|exact HnextT].
    apply preserves_bind_get. intros g Hg.
    apply preserves_bind; [apply preserves_call| |exact Hg]. intros p.
    apply preserves_bind; [apply preserves_then; intros; exact HnextT|].
    intros q. apply preserves_bind; [|intros; apply preserves_ret].
    apply preserves_catch. intros payload.
    destruct (is_error payload).
    + apply preserves_bind; [apply preserves_tell|intros; apply preserves_ret].
    + apply preserves_bind; [apply preserves_onEnd|intros; apply preserves_ret].
  - cbn [nextRound]. destruct (handleRoundEnd rs) as [h|]; [|exact HnextR].
    apply preserves_bind_get. intros g Hg.
    apply preserves_bind; [apply preserves_call| |exact Hg]. intros p.
    apply preserves_bind; [apply preserves_then; intros; exact HnextR|].
    intros q. apply preserves_bind; [|intros; apply preserves_ret].
    apply preserves_catch. intros _.
    apply preserves_bind_get. intros g' Hg'. apply IHsr, Hg'.
  - intros n. cbn [startRound].
    apply preserves_bind; [apply preserves_modify; auto|]. intros _.
    destruct (handleRoundStart rs) as [h|]; [|apply IHst].
    apply preserves_bind_get. intros g Hg.
    apply preserves_bind; [apply preserves_call| |exact Hg]. intros p.
    apply preserves_bind; [|intros; apply preserves_ret].
    apply preserves_then. intros r.
    apply preserves_bind; [apply preserves_modify; auto|]. intros _.
    apply preserves_bind; [apply IHst|intros; apply preserves_ret].
Qed.

(** The writes of the entry points: starting, a ready flag, a move. *)
Hypothesis P_started : forall g, P g -> P (set_started true g).

Lemma preserves_start fuel : preserves P (start rs fuel).
Proof.
  unfold start. apply preserves_bind; [apply preserves_modify; auto|].
  intros _. apply preserves_bind; [|intros; apply preserves_ret].
  apply preserves_lifecycle.
Qed.

Hypothesis P_ready : forall id g,
  P g -> P (set_players (mark_ready id (players g)) g).

Lemma preserves_executeReady fuel id : preserves P (executeReady rs fuel id).
Proof.
  unfold executeReady.
  apply preserves_bind; [apply preserves_modify; auto|]. intros _.
  apply preserves_bind; [apply preserves_tell|]. intros _.
  apply preserves_bind_get. intros g Hg.
  destruct (_ =? _)%nat; [apply preserves_start, Hg|exact Hg].
Qed.

Lemma preserves_readyUp fuel id payload :
  preserves P (readyUp rs fuel id payload).
Proof.
  unfold readyUp. apply preserves_bind_get. intros g Hg.
  destruct (started g); [exact Hg|].
  destruct (findPlayer g (Some id)) as [player|]; [|exact Hg].
  destruct (ready player); [exact Hg|].
  destruct (handleReadyUp rs) as [h|].
  - apply preserves_bind; [apply preserves_call| |exact Hg].
    intros [v|p].
    + destruct (get_prop v "then") as [[]|]; try apply preserves_throw.
      destruct (truthy v); [|apply preserves_ret].
      apply preserves_bind; [apply preserves_executeReady|].
      intros; apply preserves_ret.
    + apply preserves_bind; [|intros; apply preserves_ret].
      apply preserves_then. intros v.
      apply preserves_bind; [apply preserves_executeReady|].
      intros; apply preserves_ret.
  - apply preserves_bind; [apply preserves_executeReady| |exact Hg].
    intros; apply preserves_ret.
Qed.

Hypothesis P_moves : forall m g, P g -> P (set_moves (moves g ++ [m]) g).

Lemma preserves_recordMove fuel player move :
  preserves P (recordMove rs fuel player move).
Proof.
  unfold recordMove. apply preserves_bind_get. intros g Hg.
  unfold bind at 1, modify at 1.
  generalize (P_moves (mkMove (_id player) (r_number (round g))
                         (t_number (turn g)) move) g Hg).
  generalize (set_moves (moves g ++ [mkMove (_id player) (r_number (round g))
                         (t_number (turn g)) move]) g) at 1 2.
  intros g' Hg'.
  apply preserves_bind; [apply preserves_tell| |exact Hg']. intros _.
  apply preserves_bind; [apply preserves_lifecycle|intros; apply preserves_ret].
Qed.

Lemma preserves_playerMove fuel player move :
  preserves P (playerMove rs fuel player move).
Proof.
  unfold playerMove. apply preserves_bind_get. intros g Hg.
  destruct (truthy _); [exact Hg|].
  destruct (_ =? _); [exact Hg|].
  destruct (negb _); [exact Hg|].
  destruct (handleMove rs) as [h|]; [|exact Hg].
  apply preserves_bind; [apply preserves_call| |exact Hg]. intros p.
  apply preserves_then. intros v. apply preserves_recordMove.
Qed.

Hypothesis P_init_players : forall g,
  P g -> P (set_players (map createPlayer (room_players g)) g).
Hypothesis P_settings : forall v g, P g -> P (set_settings v g).

Lemma preserves_executeSetup fuel v : preserves P (executeSetup rs fuel v).
Proof.
  unfold executeSetup.
  apply preserves_bind; [apply preserves_modify; auto|]. intros _.
  apply preserves_bind; [apply preserves_tell|]. intros _.
  destruct (get_prop v "readyUp") as [r|]; [|apply preserves_throw].
  destruct (strict_eq r (VBool false)); [|apply preserves_ret].
  apply preserves_bind; [apply preserves_start|intros; apply preserves_ret].
Qed.

Lemma preserves_init fuel : preserves P (init rs fuel).
Proof.
  unfold init. apply preserves_bind; [apply preserves_modify; auto|].
  intros _. destruct (setup rs) as [s|]; [|apply preserves_start].
  apply preserves_bind; [apply preserves_call|]. intros [v|p].
  - destruct (get_prop v "then") as [[]|]; try apply preserves_throw.
    apply preserves_bind; [apply preserves_executeSetup|].
    intros; apply preserves_ret.
  - apply preserves_bind; [|intros; apply preserves_ret].
    apply preserves_then. intros v. apply preserves_executeSetup.
Qed.

End Stable.

End PreservesRules.

(** ** Facts about lookups *)

Lemma findPlayer_Some g id p :
  findPlayer g id = Some p -> id = Some (_id p) /\ p ∈ players g.
Proof.
  destruct id as [i|]; simpl; [|discriminate].
  intros H. apply find_some in H as [Hin Heq].
  apply String.eqb_eq in Heq. subst i. split; [reflexivity|].
  apply list_elem_of_In, Hin.
Qed.

Lemma findPlayer_None g i :
  i ∉ map _id (players g) -> findPlayer g (Some i) = None.
Proof.
  intros Hni. simpl.
  destruct (List.find _ _) as [p|] eqn:Hfind; [|reflexivity].
  apply find_some in Hfind as [Hin Heq]. apply String.eqb_eq in Heq.
  exfalso. apply Hni. subst i. apply list_elem_of_fmap.
  exists p. split; [reflexivity|]. apply list_elem_of_In, Hin.
Qed.

(** ** The trace only grows *)

Lemma extends_log tr e g : extends tr g -> extends tr (log e g).
Proof.
  intros [rest H]. exists (rest ++ [e]). simpl. rewrite H. apply eq_sym, app_assoc.
Qed.

(** ** Unfolding the entry points *)

Lemma playerMove_ended rs fuel player move g :
  truthy (endResults g) = true ->
  playerMove rs fuel player move g
  = (g, Returns (Rejected (VStr "Game has ended."))).
Proof. intros H. unfold playerMove, bind, get. rewrite H. reflexivity. Qed.

Lemma playerMove_not_started rs fuel player move g :
  truthy (endResults g) = false -> t_number (turn g) = 0 ->
  playerMove rs fuel player move g
  = (g, Returns (Rejected (VStr "Game has not started."))).
Proof.
  intros H Hz. unfold playerMove, bind, get. rewrite H, Hz. reflexivity.
Qed.

Lemma playerMove_not_allowed rs fuel player move g :
  truthy (endResults g) = false -> t_number (turn g) <> 0 ->
  Some (_id player) <> t_player_id (turn g) ->
  playerMove rs fuel player move g
  = (g, Returns (Rejected (VStr "You are not allowed to send that right now."))).
Proof.
  intros H Hn Hp. unfold playerMove, bind, get. apply Z.eqb_neq in Hn.
  rewrite H, Hn, bool_decide_eq_false_2 by exact Hp. reflexivity.
Qed.

Lemma playerMove_guards_pass rs fuel player move g :
  truthy (endResults g) = false -> t_number (turn g) <> 0 ->
  Some (_id player) = t_player_id (turn g) ->
  playerMove rs fuel player move g
  = match handleMove rs with
    | Some h =>
        then_ (h g move) (recordMove rs fuel player)
          (log (Called (CallHandleMove move)) g)
    | None => (g, Throws TypeError)
    end.
Proof.
  intros Hend Hn Hp. unfold playerMove; unfold bind at 1; unfold get at 1.
  cbn beta. rewrite Hend. apply Z.eqb_neq in Hn. rewrite Hn.
  rewrite bool_decide_eq_true_2 by exact Hp. cbn [negb].
  destruct (handleMove rs); reflexivity.
Qed.

Lemma nextTurn_rejected rs fuel g h e :
  handleTurnEnd rs = Some h -> h g (turn_player g) = Rejected e ->
  nextTurn rs (S fuel) false g
  = let g1 := log (Called (CallHandleTurnEnd (turn_player g))) g in
    if is_error e
    then (log (ConsoleLog e) g1, Returns (Promised (Fulfilled VUndefined)))
    else match onEnd rs e g1 with
         | (g2, Returns _) => (g2, Returns (Promised (Fulfilled VUndefined)))
         | (g2, Throws x) => (g2, Returns (Promised (Rejected x)))
         | (g2, Diverges) => (g2, Diverges)
         end.
Proof.
  intros Hh Hrej. cbn [nextTurn]. rewrite Hh.
  unfold bind at 1; unfold get at 1. cbn beta zeta.
  unfold bind at 1; unfold call at 1. cbn beta iota. rewrite Hrej.
  unfold bind at 1; unfold then_ at 1. cbn beta iota.
  unfold bind at 1; unfold catch_ at 1. cbn beta iota.
  destruct (is_error e); [reflexivity|].
  unfold bind at 1.
  destruct (onEnd rs e _) as [g2 [p| |]]; reflexivity.
Qed.

Lemma onEnd_fulfilled rs g he payload results :
  handleEnd rs = Some he -> he g payload = Fulfilled results ->
  onEnd rs payload g
  = (log (Emit "end" results)
       (log (Broadcast "game/end" results)
          (set_endResults results (log (Called (CallHandleEnd payload)) g))),
     Returns (Fulfilled VUndefined)).
Proof.
  intros Hhe Hres. unfold onEnd. rewrite Hhe.
  unfold bind at 1, call. rewrite Hres. reflexivity.
Qed.

Lemma startTurn_found rs fuel t g p :
  findPlayer g (lookupZ (playerOrder g) (t - 1)) = Some p ->
  exists G,
    startTurn rs (S fuel) t g = (G, Returns (Plain VUndefined)) /\
    turn G = mkTurn t (Some (_id p)) /\ round G = round g /\
    endResults G = endResults g /\ playerOrder G = playerOrder g /\
    players G = players g.
Proof.
  intros Hfind. cbn [startTurn]. unfold bind at 1, get at 1. rewrite Hfind.
  unfold bind at 1, modify at 1.
  destruct (handleTurnStart rs); eexists; (split; [reflexivity|]);
    simpl; auto.
Qed.

Lemma startRound_begins rs fuel n g p :
  findPlayer g (lookupZ (playerOrder g) 0) = Some p ->
  keeps_number rs ->
  exists G q,
    startRound rs (S (S fuel)) n g = (G, Returns q) /\
    (q = Plain VUndefined \/ q = Promised (Fulfilled VUndefined)) /\
    r_number (round G) = n /\ turn G = mkTurn 1 (Some (_id p)) /\
    endResults G = endResults g.
Proof.
  intros Hfind Hkeep. cbn [startRound].
  unfold bind at 1, modify at 1.
  destruct (handleRoundStart rs) as [hs|] eqn:Hhs.
  - unfold bind at 1, get at 1. unfold bind at 1, call at 1.
    destruct (Hkeep hs Hhs (set_round (mkRound n []) g) (mkRound n []))
      as (r' & Hr' & Hnum).
    cbn [round set_round]. rewrite Hr'.
    unfold bind at 1, then_ at 1. unfold bind at 1, modify at 1.
    destruct (startTurn_found rs fuel 1
                (set_round r' (log (Called (CallHandleRoundStart (mkRound n [])))
                   (set_round (mkRound n []) g))) p Hfind)
      as (G & HG & Hturn & Hround & Hend & _).
    unfold bind at 1. rewrite HG. cbn.
    exists G, (Promised (Fulfilled VUndefined)).
    split; [reflexivity|]. split; [auto|]. rewrite Hround. auto.
  - destruct (startTurn_found rs fuel 1 (set_round (mkRound n []) g) p Hfind)
      as (G & HG & Hturn & Hround & Hend & _).
    rewrite HG. exists G, (Plain VUndefined).
    split; [reflexivity|]. split; [auto|]. rewrite Hround. auto.
Qed.

(** ** Move acceptance *)

(** C1. [playerMove] fails fast, in this order: after the end
    ([if(this.endResults)], the test the code makes for "set") it rejects
    with "Game has ended."; else with turn number 0 it rejects with "Game
    has not started."; else when the submitting player is not the turn's
    player it rejects with "You are not allowed to send that right now.".
    In these three cases the state, its trace included, is untouched, so no
    hook has run. Only otherwise is [handleMove] invoked: its call, with the
    submitted payload, is the first thing added to the trace, and what
    [playerMove] returns is the promise of [handleMove] followed by the
    handler that records the move. *)
Theorem playerMove_fails_fast rs fuel player move g :
  (truthy (endResults g) = true ->
   playerMove rs fuel player move g = (g, Returns (Rejected (VStr "Game has ended.")))) /\
  (truthy (endResults g) = false -> t_number (turn g) = 0 ->
   playerMove rs fuel player move g = (g, Returns (Rejected (VStr "Game has not started.")))) /\
  (truthy (endResults g) = false -> t_number (turn g) <> 0 ->
   Some (_id player) <> t_player_id (turn g) ->
   playerMove rs fuel player move g = (g, Returns (Rejected (VStr "You are not allowed to send that right now.")))) /\
  (truthy (endResults g) = false -> t_number (turn g) <> 0 ->
   Some (_id player) = t_player_id (turn g) ->
   forall h, handleMove rs = Some h ->
   playerMove rs fuel player move g
   = then_ (h g move) (recordMove rs fuel player)
       (log (Called (CallHandleMove move)) g) /\
   exists rest,
     trace (playerMove rs fuel player move g).1
     = trace g ++ Called (CallHandleMove move) :: rest).
Proof.
  split; [|split; [|split]].
  - apply playerMove_ended.
  - apply playerMove_not_started.
  - apply playerMove_not_allowed.
  - intros Hend Hn Hp h Hh.
    rewrite playerMove_guards_pass, Hh by assumption.
    split; [reflexivity|].
    destruct (preserves_then (P := extends (trace g ++ [Called (CallHandleMove move)]))
                (h g move) (recordMove rs fuel player)) with
      (g := log (Called (CallHandleMove move)) g) as [rest Hrest].
    { intros v. apply preserves_recordMove; auto using extends_log. }
    { exists []. simpl. apply eq_sym, app_nil_r. }
    exists rest. rewrite <- app_assoc in Hrest. exact Hrest.
Qed.

Lemma playerMove_fails_fast_witness :
  playerMove testRules 3 player1 VNull ended2
  = (ended2, Returns (Rejected (VStr "Game has ended."))) /\
  playerMove testRules 3 player1 VNull fresh2
  = (fresh2, Returns (Rejected (VStr "Game has not started."))) /\
  playerMove testRules 3 player2 VNull playing2
  = (playing2, Returns (Rejected (VStr "You are not allowed to send that right now."))) /\
  exists rest,
    trace (playerMove testRules 3 player1 VNull playing2).1
    = trace playing2 ++ Called (CallHandleMove VNull) :: rest.
Proof.
  destruct (playerMove_fails_fast testRules 3 player1 VNull ended2) as (H1 & _).
  destruct (playerMove_fails_fast testRules 3 player1 VNull fresh2) as (_ & H2 & _).
  destruct (playerMove_fails_fast testRules 3 player2 VNull playing2) as (_ & _ & H3 & _).
  destruct (playerMove_fails_fast testRules 3 player1 VNull playing2) as (_ & _ & _ & H4).
  split; [|split; [|split]].
  - apply H1. reflexivity.
  - apply H2; reflexivity.
  - apply H3; [reflexivity| |]; vm_compute; discriminate.
  - apply (H4 eq_refl) with (h := fun _ payload => Fulfilled payload);
      [vm_compute; discriminate|reflexivity|reflexivity].
Defined.

(** C4. A failing [playerMove] leaves the game as it was. A protocol
    violation (ended, not started, not the turn's player) returns the very
    state it was called in. When [handleMove] rejects, its reason is the
    reason [playerMove] rejects with, no field of the serialized state has
    changed ([moves], [round], [turn], [started] and [endResults] among
    them), and the only addition to the trace is the hook call itself: no
    notification was sent. *)
Theorem playerMove_failure_atomic rs fuel player move g :
  (truthy (endResults g) = true \/ t_number (turn g) = 0 \/
   Some (_id player) <> t_player_id (turn g) ->
   (playerMove rs fuel player move g).1 = g /\
   exists reason, (playerMove rs fuel player move g).2 = Returns (Rejected (VStr reason))) /\
  (truthy (endResults g) = false -> t_number (turn g) <> 0 ->
   Some (_id player) = t_player_id (turn g) ->
   forall h reason, handleMove rs = Some h -> h g move = Rejected reason ->
   (playerMove rs fuel player move g).2 = Returns (Rejected reason) /\
   unchanged g (playerMove rs fuel player move g).1 /\
   trace (playerMove rs fuel player move g).1
   = trace g ++ [Called (CallHandleMove move)]).
Proof.
  split.
  - intros Hguard.
    destruct (truthy (endResults g)) eqn:Hend.
    { rewrite playerMove_ended by exact Hend. eauto. }
    destruct (Z.eq_dec (t_number (turn g)) 0) as [Hz|Hnz].
    { rewrite playerMove_not_started by auto. eauto. }
    destruct (decide (Some (_id player) = t_player_id (turn g))) as [Heq|Hne].
    { destruct Hguard as [?|[?|?]]; congruence. }
    rewrite playerMove_not_allowed by auto. eauto.
  - intros Hend Hn Hp h reason Hh Hrej.
    rewrite playerMove_guards_pass, Hh, Hrej by assumption. simpl.
    split; [reflexivity|]. split; [|reflexivity].
    unfold unchanged. simpl. tauto.
Qed.

Lemma playerMove_failure_atomic_witness :
  ((playerMove testRules 3 player2 VNull playing2).1 = playing2 /\
   exists reason,
     (playerMove testRules 3 player2 VNull playing2).2
     = Returns (Rejected (VStr reason))) /\
  ((playerMove refusingRules 3 player1 VNull playing2).2
   = Returns (Rejected (VStr "Invalid guess!")) /\
   unchanged playing2 (playerMove refusingRules 3 player1 VNull playing2).1 /\
   trace (playerMove refusingRules 3 player1 VNull playing2).1
   = trace playing2 ++ [Called (CallHandleMove VNull)]).
Proof.
  split.
  - apply (proj1 (playerMove_failure_atomic testRules 3 player2 VNull playing2)).
    right; right. vm_compute. discriminate.
  - apply (proj2 (playerMove_failure_atomic refusingRules 3 player1 VNull playing2))
      with (h := fun _ _ => Rejected (VStr "Invalid guess!")).
    + reflexivity.
    + vm_compute. discriminate.
    + reflexivity.
    + reflexivity.
    + reflexivity.
Defined.

(** ** The end of the game *)

(** C2, as amended. When [handleTurnEnd] rejects with a payload that is not
    an error, [nextTurn] runs the end sequence with that payload: [handleEnd]
    is called with it, [endResults] becomes the value it resolves to, the
    end notification is broadcast (and the end event emitted), and neither
    the round nor the turn moves. If that value is truthy, as every results
    object is, each later [playerMove] rejects with "Game has ended." and
    leaves the state as it is. *)
Theorem turn_end_win_ends_game rs fuel g h he payload results :
  handleTurnEnd rs = Some h -> h g (turn_player g) = Rejected payload ->
  is_error payload = false ->
  handleEnd rs = Some he ->
  he (log (Called (CallHandleTurnEnd (turn_player g))) g) payload
  = Fulfilled results ->
  exists G,
    nextTurn rs (S fuel) false g
    = (G, Returns (Promised (Fulfilled VUndefined))) /\
    endResults G = results /\
    trace G
    = trace g ++ [Called (CallHandleTurnEnd (turn_player g));
                  Called (CallHandleEnd payload);
                  Broadcast "game/end" results; Emit "end" results] /\
    round G = round g /\ turn G = turn g /\ moves G = moves g /\
    (truthy results = true ->
     forall fuel' player move,
       playerMove rs fuel' player move G
       = (G, Returns (Rejected (VStr "Game has ended.")))).
Proof.
  intros Hh Hrej Herr Hhe Hres.
  rewrite (nextTurn_rejected rs fuel g h payload Hh Hrej), Herr.
  cbn zeta. rewrite (onEnd_fulfilled rs _ he payload results Hhe Hres).
  eexists. split; [reflexivity|]. split; [reflexivity|]. split.
  { simpl. rewrite <- !app_assoc. reflexivity. }
  split; [reflexivity|]. split; [reflexivity|]. split; [reflexivity|].
  intros Htruthy fuel' player move.
  apply playerMove_ended. exact Htruthy.
Qed.

Lemma turn_end_win_ends_game_witness :
  exists G,
    nextTurn (turnEndRules (Rejected (VObj [("winner", VStr "p1")]))
                (VObj [("winner", VStr "p1")])) 1 false playing2
    = (G, Returns (Promised (Fulfilled VUndefined))) /\
    endResults G = VObj [("winner", VStr "p1")] /\
    playerMove (turnEndRules (Rejected (VObj [("winner", VStr "p1")]))
                  (VObj [("winner", VStr "p1")])) 3 player1 VNull G
    = (G, Returns (Rejected (VStr "Game has ended."))).
Proof.
  destruct (turn_end_win_ends_game
              (turnEndRules (Rejected (VObj [("winner", VStr "p1")]))
                 (VObj [("winner", VStr "p1")]))
              0 playing2 (fun _ _ => Rejected (VObj [("winner", VStr "p1")]))
              (fun _ _ => Fulfilled (VObj [("winner", VStr "p1")]))
              (VObj [("winner", VStr "p1")]) (VObj [("winner", VStr "p1")])
              eq_refl eq_refl eq_refl eq_refl eq_refl)
    as (G & HG & Hres & _ & _ & _ & _ & Hmove).
  exists G. split; [exact HG|]. split; [exact Hres|].
  apply Hmove. reflexivity.
Defined.

(** C2 as it is stated fails: it promises the rejection of later moves for
    whatever [handleEnd] resolves to. When [handleEnd] resolves to
    [undefined], [endResults] is that value, [if(this.endResults)] does not
    fire, and the turn's player can still move. *)
Lemma end_without_results_counterexample :
  ~ (forall rs fuel g h he payload results,
       handleTurnEnd rs = Some h -> h g (turn_player g) = Rejected payload ->
       is_error payload = false ->
       handleEnd rs = Some he ->
       he (log (Called (CallHandleTurnEnd (turn_player g))) g) payload
       = Fulfilled results ->
       forall fuel' player move,
         (playerMove rs fuel' player move (nextTurn rs (S fuel) false g).1).2
         = Returns (Rejected (VStr "Game has ended."))).
Proof.
  intros H.
  specialize (H (turnEndRules (Rejected (VObj [("winner", VStr "p1")])) VUndefined)
                0%nat playing2 _ _ _ _ eq_refl eq_refl eq_refl eq_refl eq_refl
                3%nat player1 VNull).
  vm_compute in H. discriminate H.
Qed.

(** C3, as amended. When [handleTurnEnd] rejects with an [Error], the
    error is written to the console and swallowed: the promise [nextTurn]
    returns is fulfilled. Nothing else happens: no next turn or round is
    started, and the state is the one the hook was called in, so the same
    player still holds the turn. *)
Theorem turn_end_error_is_swallowed rs fuel g h e :
  handleTurnEnd rs = Some h -> h g (turn_player g) = Rejected e ->
  is_error e = true ->
  (nextTurn rs (S fuel) false g).2 = Returns (Promised (Fulfilled VUndefined)) /\
  trace (nextTurn rs (S fuel) false g).1
  = trace g ++ [Called (CallHandleTurnEnd (turn_player g)); ConsoleLog e] /\
  unchanged g (nextTurn rs (S fuel) false g).1.
Proof.
  intros Hh Hrej Herr.
  rewrite (nextTurn_rejected rs fuel g h e Hh Hrej), Herr. cbn zeta.
  split; [reflexivity|]. split.
  { simpl. rewrite <- app_assoc. reflexivity. }
  unfold unchanged. simpl. tauto.
Qed.

Lemma turn_end_error_is_swallowed_witness :
  let rs := turnEndRules (Rejected (VError "boom")) (VObj []) in
  (nextTurn rs 1 false playing2).2 = Returns (Promised (Fulfilled VUndefined)) /\
  trace (nextTurn rs 1 false playing2).1
  = trace playing2 ++ [Called (CallHandleTurnEnd (turn_player playing2));
                       ConsoleLog (VError "boom")] /\
  unchanged playing2 (nextTurn rs 1 false playing2).1.
Proof.
  intros rs.
  exact (turn_end_error_is_swallowed rs 0 playing2
           (fun _ _ => Rejected (VError "boom")) (VError "boom")
           eq_refl eq_refl eq_refl).
Defined.

(** C3 as it is stated fails: after an error rejection the game is not
    where it would be had [handleTurnEnd] resolved. With two players and
    the first one's turn running, resolving starts turn 2; rejecting with
    an error leaves turn 1 in place. *)
Lemma turn_end_error_counterexample :
  ~ (forall rs fuel g h e,
       handleTurnEnd rs = Some h -> h g (turn_player g) = Rejected e ->
       is_error e = true ->
       turn (nextTurn rs (S fuel) false g).1
       = turn (nextTurn (set_handleTurnEnd (Some (fun _ _ => Fulfilled tt)) rs)
                 (S fuel) false g).1).
Proof.
  intros H.
  specialize (H (turnEndRules (Rejected (VError "boom")) (VObj [])) 1%nat
                playing2 _ (VError "boom") eq_refl eq_refl eq_refl).
  vm_compute in H. discriminate H.
Qed.

(** ** The ready-up phase *)

Section ReadyFlags.

Variable ps0 : list Player.
Hypothesis ids_distinct : NoDup (map _id ps0).

Lemma with_ready_nil :
  Forall (fun p => ready p = false) ps0 -> map (with_ready []) ps0 = ps0.
Proof.
  clear ids_distinct. induction 1 as [|[i r] ps Hr _ IH]; [reflexivity|].
  simpl in *. subst r. rewrite IH. reflexivity.
Qed.

Lemma mark_ready_with_ready done id :
  mark_ready id (map (with_ready done) ps0) = map (with_ready (id :: done)) ps0.
Proof.
  induction ps0 as [|p ps IH]; [reflexivity|].
  simpl in ids_distinct. apply NoDup_cons in ids_distinct as [Hp Hps].
  simpl. destruct (String.eqb_spec (_id p) id) as [Hid|Hne].
  - f_equal.
    + unfold with_ready. rewrite bool_decide_eq_true_2; [reflexivity|].
      rewrite Hid. left.
    + apply map_ext_in. intros q Hq. unfold with_ready. f_equal.
      apply bool_decide_ext. rewrite elem_of_cons.
      split; [tauto|]. intros [Heq|H]; [|exact H].
      exfalso. apply Hp. rewrite Hid, <- Heq. apply list_elem_of_fmap.
      exists q. split; [reflexivity|]. apply list_elem_of_In, Hq.
  - f_equal; [|apply IH, Hps].
    unfold with_ready. f_equal. apply bool_decide_ext.
    rewrite elem_of_cons. split; [tauto|]. intros [Heq|H]; [congruence|exact H].
Qed.

Lemma find_with_ready done id :
  id ∈ map _id ps0 ->
  List.find (fun p => String.eqb (_id p) id) (map (with_ready done) ps0)
  = Some (mkPlayer id (bool_decide (id ∈ done))).
Proof.
  clear ids_distinct. induction ps0 as [|p ps IH]; simpl.
  { intros H. apply elem_of_nil in H as []. }
  intros Hin. destruct (String.eqb_spec (_id p) id) as [Hid|Hne].
  { unfold with_ready. rewrite Hid. reflexivity. }
  apply IH. apply elem_of_cons in Hin as [Heq|H]; [congruence|exact H].
Qed.

Lemma all_ready_with_ready done :
  (length (List.filter (fun p => negb (ready p)) (map (with_ready done) ps0)) =? 0)%nat
  = bool_decide (map _id ps0 ⊆ done).
Proof.
  clear ids_distinct. induction ps0 as [|p ps IH]; simpl; [reflexivity|].
  destruct (decide (_id p ∈ done)) as [Hin|Hni].
  - rewrite bool_decide_eq_true_2 by exact Hin. simpl. rewrite IH.
    apply bool_decide_ext. split.
    + intros Hsub x Hx. apply elem_of_cons in Hx as [->|Hx]; auto.
    + intros Hsub x Hx. apply Hsub. right. exact Hx.
  - rewrite bool_decide_eq_false_2 by exact Hni. simpl.
    rewrite bool_decide_eq_false_2; [reflexivity|].
    intros Hsub. apply Hni, Hsub. left.
Qed.

End ReadyFlags.

Lemma bind_ret_fst {A B} (m : M A) (b : B) g :
  (bind m (fun _ => ret b) g).1 = (m g).1.
Proof. unfold bind. destruct (m g) as [g1 [a| |]]; reflexivity. Qed.

Lemma bind_ret_map_fst {A B} (m : M A) (f : A -> B) g :
  (bind m (fun a => ret (f a)) g).1 = (m g).1.
Proof. unfold bind. destruct (m g) as [g1 [a| |]]; reflexivity. Qed.

Lemma settle_fst r : (settle r).1 = r.1.
Proof. destruct r as [g [[v|p]| |]]; reflexivity. Qed.

Lemma started_after_start rs fuel g : started (start rs fuel g).1 = true.
Proof.
  unfold start. unfold bind at 1, modify at 1.
  apply (preserves_bind (P := fun g => started g = true)); [| |reflexivity].
  - apply preserves_lifecycle; auto.
  - intros; apply preserves_ret.
Qed.

Section ReadyUpSteps.

Variable rs : Rules.
Variable fuel : nat.
Variable ps0 : list Player.
Hypothesis ids_distinct : NoDup (map _id ps0).

Lemma executeReady_eq id done g :
  players g = map (with_ready done) ps0 ->
  executeReady rs fuel id g
  = (if bool_decide (map _id ps0 ⊆ id :: done) then start rs fuel else ret tt)
      (log (Broadcast "game/player_ready" (VObj [("player_id", VStr id)]))
         (set_players (map (with_ready (id :: done)) ps0) g)).
Proof.
  intros Hps. unfold executeReady.
  unfold bind at 1, modify at 1. unfold bind at 1, tell at 1, modify at 1.
  unfold bind at 1, get at 1. cbn [players log set_players].
  rewrite Hps, (mark_ready_with_ready ps0 ids_distinct), all_ready_with_ready.
  reflexivity.
Qed.

Lemma executeReady_step id done g :
  players g = map (with_ready done) ps0 -> started g = false ->
  if bool_decide (map _id ps0 ⊆ id :: done)
  then started (executeReady rs fuel id g).1 = true
  else started (executeReady rs fuel id g).1 = false /\
       players (executeReady rs fuel id g).1 = map (with_ready (id :: done)) ps0.
Proof.
  intros Hps Hst. rewrite (executeReady_eq id done g Hps).
  destruct (bool_decide _); [apply started_after_start|].
  simpl. auto.
Qed.

Lemma readyUp_accepted id payload done g :
  players g = map (with_ready done) ps0 -> started g = false ->
  id ∈ map _id ps0 -> id ∉ done ->
  (forall h, handleReadyUp rs = Some h -> accepts (h g id payload)) ->
  exists g1, players g1 = players g /\ started g1 = started g /\
    (readyUp rs fuel id payload g).1 = (executeReady rs fuel id g1).1.
Proof.
  intros Hps Hst Hin Hnd Hacc. unfold readyUp.
  unfold bind at 1, get at 1. rewrite Hst. cbn [findPlayer]. rewrite Hps.
  rewrite find_with_ready by exact Hin.
  rewrite (bool_decide_eq_false_2 (id ∈ done)) by exact Hnd. cbn [ready].
  destruct (handleReadyUp rs) as [h|].
  - specialize (Hacc h eq_refl). unfold bind at 1, call at 1.
    exists (log (Called (CallHandleReadyUp id payload)) g).
    split; [exact Hps|]. split; [exact Hst|].
    destruct (h g id payload) as [v|p]; simpl in Hacc.
    + destruct Hacc as [-> ->]. apply bind_ret_fst.
    + destruct Hacc as [v ->]. rewrite bind_ret_map_fst.
      unfold then_. rewrite settle_fst. apply bind_ret_fst.
  - exists g. split; [exact Hps|]. split; [exact Hst|]. apply bind_ret_fst.
Qed.

Lemma readyUp_step id payload done g :
  players g = map (with_ready done) ps0 -> started g = false ->
  id ∈ map _id ps0 -> id ∉ done ->
  (forall h, handleReadyUp rs = Some h -> accepts (h g id payload)) ->
  if bool_decide (map _id ps0 ⊆ id :: done)
  then started (readyUp rs fuel id payload g).1 = true
  else started (readyUp rs fuel id payload g).1 = false /\
       players (readyUp rs fuel id payload g).1 = map (with_ready (id :: done)) ps0.
Proof.
  intros Hps Hst Hin Hnd Hacc.
  destruct (readyUp_accepted id payload done g Hps Hst Hin Hnd Hacc)
    as (g1 & Hps1 & Hst1 & ->).
  apply executeReady_step; congruence.
Qed.

Lemma readyUps_inv calls : forall done g,
  players g = map (with_ready done) ps0 -> started g = false ->
  NoDup done -> done ⊆ map _id ps0 ->
  NoDup (map fst calls) ->
  (forall c, c ∈ calls -> c.1 ∈ map _id ps0 /\ c.1 ∉ done) ->
  (forall h, handleReadyUp rs = Some h ->
   forall g' c, c ∈ calls -> accepts (h g' c.1 c.2)) ->
  ((length done + length calls < length ps0)%nat ->
   started (readyUps rs fuel calls g) = false) /\
  (calls <> [] -> (length done + length calls = length ps0)%nat ->
   started (readyUps rs fuel calls g) = true).
Proof.
  induction calls as [|[id payload] rest IH]; intros done g Hps Hst Hnd Hsub Hnc Hc Hacc.
  { simpl. split; [intros _; exact Hst|intros []; reflexivity]. }
  simpl in Hnc. apply NoDup_cons in Hnc as [Hid Hrest].
  destruct (Hc (id, payload)) as [Hin Hfresh]; [left|]. simpl in Hin, Hfresh.
  assert (HndL : NoDup (id :: done)) by (apply NoDup_cons; auto).
  assert (HsubL : id :: done ⊆ map _id ps0).
  { intros x Hx. apply elem_of_cons in Hx as [->|Hx]; auto. }
  assert (HlenL : (length (id :: done) <= length ps0)%nat).
  { rewrite <- (length_map _id ps0).
    apply submseteq_length, NoDup_submseteq; auto. }
  pose proof (readyUp_step id payload done g Hps Hst Hin Hfresh
                (fun h Hh => Hacc h Hh g (id, payload) ltac:(left))) as Hstep.
  change (readyUps rs fuel ((id, payload) :: rest) g)
    with (readyUps rs fuel rest (readyUp rs fuel id payload g).1).
  simpl in HlenL. cbn [length].
  destruct (bool_decide (map _id ps0 ⊆ id :: done)) eqn:Hall.
  - apply bool_decide_eq_true_1 in Hall.
    assert ((length ps0 <= length (id :: done))%nat) as Hge.
    { rewrite <- (length_map _id ps0).
      apply submseteq_length, NoDup_submseteq; auto. }
    simpl in Hge. split; [lia|]. intros _ Hlen.
    destruct rest as [|c rest]; [exact Hstep|simpl in Hlen; lia].
  - apply bool_decide_eq_false_1 in Hall. destruct Hstep as [Hst' Hps'].
    assert ((length (id :: done) < length ps0)%nat) as Hlt.
    { destruct (Nat.eq_dec (length (id :: done)) (length ps0)) as [Heq|Hne];
        [|simpl in *; lia].
      exfalso. apply Hall. intros x Hx.
      assert (id :: done ≡ₚ map _id ps0) as Hperm.
      { apply submseteq_length_Permutation;
          [apply NoDup_submseteq; auto|rewrite length_map; lia]. }
      rewrite Hperm. exact Hx. }
    destruct (IH (id :: done) (readyUp rs fuel id payload g).1) as [IHa IHb];
      auto.
    { intros c Hcin. destruct (Hc c) as [H1 H2]; [right; exact Hcin|].
      split; [exact H1|]. intros Hx. apply elem_of_cons in Hx as [Hx|Hx]; auto.
      apply Hid. rewrite <- Hx. apply list_elem_of_fmap. exists c. auto. }
    { intros h Hh g' c Hcin. apply Hacc; [exact Hh|right; exact Hcin]. }
    simpl in IHa, IHb, Hlt. split.
    + intros Hlen. apply IHa. lia.
    + intros _ Hlen. apply IHb; [|lia].
      intros ->. simpl in Hlen. lia.
Qed.

End ReadyUpSteps.

(** The ready-up phase is what [init] leaves when [setup] returns a
    settings object whose [readyUp] is not [false]: nothing has started and
    nobody is ready. *)
Lemma init_ready_up_phase rs fuel game_name room s fs :
  setup rs = Some s ->
  s (set_players (map createPlayer room) (newGame game_name room))
  = Plain (VObj fs) ->
  assoc "then" fs = None ->
  assoc "readyUp" fs <> Some (VBool false) ->
  exists G,
    init rs fuel (newGame game_name room) = (G, Returns tt) /\
    started G = false /\
    players G = map createPlayer room /\
    playerOrder G = room /\
    turn G = mkTurn 0 None.
Proof.
  intros Hs Hret Hthen Hready. unfold init. rewrite Hs.
  unfold bind at 1, modify at 1. unfold bind at 1, call at 1.
  cbn [room_players newGame]. rewrite Hret.
  cbn [get_prop]. rewrite Hthen. cbn [default].
  unfold executeSetup.
  unfold bind at 1. unfold bind at 1, modify at 1.
  unfold bind at 1, tell at 1, modify at 1. cbn [get_prop].
  assert (strict_eq (default VUndefined (assoc "readyUp" fs)) (VBool false) = false)
    as ->.
  { destruct (assoc "readyUp" fs) as [[| |[]| | | |]|]; try reflexivity.
    congruence. }
  eexists. split; [reflexivity|]. simpl. auto.
Qed.

Lemma find_mark_ready_id i id ps p :
  List.find (fun q => String.eqb (_id q) i) ps = Some p ->
  exists p', List.find (fun q => String.eqb (_id q) i) (mark_ready id ps) = Some p'
             /\ _id p' = _id p.
Proof.
  induction ps as [|q ps IH]; simpl; [discriminate|].
  destruct (String.eqb (_id q) id) eqn:Hid; simpl;
    destruct (String.eqb (_id q) i) eqn:Hi.
  - intros [= <-]. eauto.
  - intros H. eauto.
  - intros [= <-]. eauto.
  - exact IH.
Qed.

(** With no [handleReadyUp], a ready-up that goes through returns [true]:
    also the last one, which starts the game, when the first player of the
    order is a player of the game. *)
Lemma readyUp_returns_true rs fuel id payload g player p :
  handleReadyUp rs = None -> started g = false ->
  findPlayer g (Some id) = Some player -> ready player = false ->
  findPlayer g (lookupZ (playerOrder g) 0) = Some p -> keeps_number rs ->
  exists G, readyUp rs (S (S fuel)) id payload g = (G, Returns (Plain (VBool true))).
Proof.
  intros Hh Hst Hfind Hr Hfirst Hkeep. unfold readyUp.
  unfold bind at 1, get at 1. rewrite Hst, Hfind, Hr, Hh.
  unfold bind at 1. unfold executeReady.
  unfold bind at 1, modify at 1. unfold bind at 1, tell at 1, modify at 1.
  unfold bind at 1, get at 1.
  destruct (_ =? _)%nat; [|eexists; reflexivity].
  unfold start. unfold bind at 1, modify at 1.
  assert (exists p', findPlayer
            (set_started true
               (log (Broadcast "game/player_ready" (VObj [("player_id", VStr id)]))
                  (set_players (mark_ready id (players g)) g)))
            (lookupZ (playerOrder g) 0) = Some p') as [p' Hp'].
  { destruct (lookupZ (playerOrder g) 0) as [i|]; [|discriminate].
    simpl in Hfirst |- *.
    destruct (find_mark_ready_id i id _ p Hfirst) as (p' & Hp' & _). eauto. }
  destruct (startRound_begins rs fuel 1 _ p' Hp' Hkeep) as (G & q & HG & _).
  unfold bind at 1. rewrite HG. eexists. reflexivity.
Qed.

(** C5. Take a game that has not started, with N players of distinct
    identifiers, none of them ready. After any series of successful
    [readyUp] calls by distinct players the game has not started as long
    as the series is shorter than N, and it has started when the series
    has length N: the state the N-th call returns already has [started]
    set. A call is successful when the rule set has no [handleReadyUp], or
    when the hook returns a truthy value or a promise that fulfils. *)
Theorem game_starts_on_last_readyUp rs fuel g calls :
  started g = false ->
  Forall (fun p => ready p = false) (players g) ->
  NoDup (map _id (players g)) ->
  NoDup (map fst calls) ->
  (forall c, c ∈ calls -> c.1 ∈ map _id (players g)) ->
  (forall h, handleReadyUp rs = Some h ->
   forall g' c, c ∈ calls -> accepts (h g' c.1 c.2)) ->
  ((length calls < length (players g))%nat ->
   started (readyUps rs fuel calls g) = false) /\
  (calls <> [] -> length calls = length (players g) ->
   started (readyUps rs fuel calls g) = true).
Proof.
  intros Hst Hnone Hids Hcalls Hin Hacc.
  apply (readyUps_inv rs fuel (players g) Hids calls [] g); auto.
  - symmetry. apply with_ready_nil, Hnone.
  - apply NoDup_nil_2.
  - intros x Hx. apply elem_of_nil in Hx as [].
  - intros c Hc. split; [auto|]. apply not_elem_of_nil.
Qed.

Lemma game_starts_on_last_readyUp_witness :
  started (readyUps readyRules 3 [("1", VObj [])] waiting2) = false /\
  started (readyUps readyRules 3 [("1", VObj []); ("2", VObj [])] waiting2) = true.
Proof.
  assert (Hnone : Forall (fun p => ready p = false) (players waiting2))
    by (repeat constructor).
  assert (Hids : NoDup (map _id (players waiting2)))
    by (apply (bool_decide_unpack _); vm_compute; exact I).
  split.
  - apply (proj1 (game_starts_on_last_readyUp readyRules 3 waiting2
                    [("1", VObj [])] eq_refl Hnone Hids
                    ltac:(apply (bool_decide_unpack _); vm_compute; exact I)
                    ltac:(intros c Hc; apply list_elem_of_singleton in Hc as ->;
                          apply (bool_decide_unpack _); vm_compute; exact I)
                    ltac:(intros h Hh; discriminate Hh))).
    vm_compute. lia.
  - apply (proj2 (game_starts_on_last_readyUp readyRules 3 waiting2
                    [("1", VObj []); ("2", VObj [])] eq_refl Hnone Hids
                    ltac:(apply (bool_decide_unpack _); vm_compute; exact I)
                    ltac:(intros c Hc; apply elem_of_cons in Hc as [->|Hc];
                          [|apply list_elem_of_singleton in Hc as ->];
                          apply (bool_decide_unpack _); vm_compute; exact I)
                    ltac:(intros h Hh; discriminate Hh))).
    + discriminate.
    + reflexivity.
Defined.

(** ** Rounds *)

Lemma nextRound_rejected rs fuel g h e :
  handleRoundEnd rs = Some h -> h g (round g) = Rejected e ->
  forall G q,
    startRound rs fuel (r_number (round g))
      (log (Called (CallHandleRoundEnd (round g))) g)
    = (G, Returns q) ->
    q = Plain VUndefined \/ q = Promised (Fulfilled VUndefined) ->
    nextRound rs (S fuel) g = (G, Returns (Promised (Fulfilled VUndefined))).
Proof.
  intros Hh Hrej G q Hrun Hq. cbn [nextRound]. rewrite Hh.
  unfold bind at 1, get at 1. unfold bind at 1, call at 1. rewrite Hrej.
  unfold bind at 1, then_ at 1. unfold bind at 1, catch_ at 1.
  unfold bind at 1, get at 1. cbn [round log] in *. rewrite Hrun.
  destruct Hq as [-> | ->]; reflexivity.
Qed.

Lemma nextRound_fulfilled rs fuel g h :
  handleRoundEnd rs = Some h -> h g (round g) = Fulfilled tt ->
  forall G q,
    (if maxRounds_exceeded (maxRounds g) (r_number (round g) + 1)
     then let* p := onEnd rs VUndefined in ret (Promised p)
     else startRound rs fuel (r_number (round g) + 1))
      (log (Called (CallHandleRoundEnd (round g))) g)
    = (G, Returns q) ->
    q = Plain VUndefined \/ q = Promised (Fulfilled VUndefined) ->
    nextRound rs (S fuel) g = (G, Returns (Promised (Fulfilled VUndefined))).
Proof.
  intros Hh Hres G q Hrun Hq. cbn [nextRound]. rewrite Hh.
  unfold bind at 1, get at 1. unfold bind at 1, call at 1. rewrite Hres.
  unfold bind at 1, then_ at 1. unfold bind at 1, get at 1.
  cbn [maxRounds round log] in *. rewrite Hrun.
  destruct Hq as [-> | ->]; reflexivity.
Qed.

(** C6. Let the round number be [n] when [nextRound] runs, in a game whose
    first player in the order is a player of the game and whose round-start
    hook, if there is one, keeps the number of the round it is given. Then
    [nextRound] returns a promise that is fulfilled, and:
    - If [handleRoundEnd] rejects, the same round is started again: the
      round number is still [n] and the turn is turn 1 of the first player.
    - If [handleRoundEnd] resolves and [n + 1] does not exceed [maxRounds]
      ([maxRounds] is [null] or 0, or at least [n + 1]), round [n + 1] is
      started: the round number is [n + 1] and the turn is turn 1.
    - If [handleRoundEnd] resolves and [maxRounds] is set and less than
      [n + 1], the game ends instead: [handleEnd] is called, [endResults]
      is what it resolves to, the end is broadcast, and round and turn stay
      as they are.
    In no case does the round number decrease. *)
Theorem round_end_restarts_or_advances rs fuel g h p :
  handleRoundEnd rs = Some h ->
  findPlayer g (lookupZ (playerOrder g) 0) = Some p ->
  keeps_number rs ->
  (forall e, h g (round g) = Rejected e ->
   exists G,
     nextRound rs (S (S (S fuel))) g
     = (G, Returns (Promised (Fulfilled VUndefined))) /\
     r_number (round G) = r_number (round g) /\
     turn G = mkTurn 1 (Some (_id p))) /\
  (h g (round g) = Fulfilled tt ->
   (forall m, maxRounds g = Some m -> m = 0 \/ r_number (round g) + 1 <= m) ->
   exists G,
     nextRound rs (S (S (S fuel))) g
     = (G, Returns (Promised (Fulfilled VUndefined))) /\
     r_number (round G) = r_number (round g) + 1 /\
     turn G = mkTurn 1 (Some (_id p))) /\
  (h g (round g) = Fulfilled tt ->
   forall m, maxRounds g = Some m -> m <> 0 -> m < r_number (round g) + 1 ->
   forall he results, handleEnd rs = Some he ->
   he (log (Called (CallHandleRoundEnd (round g))) g) VUndefined = Fulfilled results ->
   exists G,
     nextRound rs (S (S (S fuel))) g
     = (G, Returns (Promised (Fulfilled VUndefined))) /\
     endResults G = results /\
     Broadcast "game/end" results ∈ trace G /\
     round G = round g /\ turn G = turn g).
Proof.
  intros Hh Hfind Hkeep. split; [|split].
  - intros e Hrej.
    destruct (startRound_begins rs fuel (r_number (round g))
                (log (Called (CallHandleRoundEnd (round g))) g) p Hfind Hkeep)
      as (G & q & HG & Hq & Hnum & Hturn & _).
    exists G. split; [|auto].
    exact (nextRound_rejected rs _ g h e Hh Hrej G q HG Hq).
  - intros Hres Hmax.
    destruct (startRound_begins rs fuel (r_number (round g) + 1)
                (log (Called (CallHandleRoundEnd (round g))) g) p Hfind Hkeep)
      as (G & q & HG & Hq & Hnum & Hturn & _).
    exists G. split; [|auto].
    apply (nextRound_fulfilled rs _ g h Hh Hres G q); [|exact Hq].
    replace (maxRounds_exceeded _ _) with false; [exact HG|].
    unfold maxRounds_exceeded. destruct (maxRounds g) as [m|]; [|reflexivity].
    destruct (Hmax m eq_refl) as [-> | Hle]; [reflexivity|].
    symmetry. apply andb_false_iff. right. rewrite Z.gtb_ltb. apply Z.ltb_ge, Hle.
  - intros Hres m Hm Hnz Hlt he results Hhe Hend.
    eexists. split.
    + apply (nextRound_fulfilled rs _ g h Hh Hres _
               (Promised (Fulfilled VUndefined))); [|auto].
      replace (maxRounds_exceeded _ _) with true.
      * unfold bind at 1.
        rewrite (onEnd_fulfilled rs _ he VUndefined results Hhe Hend).
        reflexivity.
      * unfold maxRounds_exceeded. rewrite Hm. symmetry.
        apply andb_true_iff. split.
        -- apply negb_true_iff, Z.eqb_neq, Hnz.
        -- rewrite Z.gtb_ltb. apply Z.ltb_lt, Hlt.
    + split; [reflexivity|]. split; [|split; reflexivity].
      simpl. rewrite !elem_of_app, !elem_of_cons. auto.
Qed.

Lemma round_end_restarts_or_advances_witness :
  (exists G,
     nextRound (dieRollRules (Rejected VNull)) 3 playing2
     = (G, Returns (Promised (Fulfilled VUndefined))) /\
     r_number (round G) = r_number (round playing2) /\
     turn G = mkTurn 1 (Some "1")) /\
  (exists G,
     nextRound (roundEndRules (Fulfilled tt)) 3 playing2
     = (G, Returns (Promised (Fulfilled VUndefined))) /\
     r_number (round G) = r_number (round playing2) + 1 /\
     turn G = mkTurn 1 (Some "1")) /\
  (exists G,
     nextRound (roundEndRules (Fulfilled tt)) 3 (set_maxRounds (Some 1) playing2)
     = (G, Returns (Promised (Fulfilled VUndefined))) /\
     endResults G = VUndefined /\
     Broadcast "game/end" VUndefined ∈ trace G /\
     round G = round playing2 /\ turn G = turn playing2).
Proof.
  split; [|split].
  - apply (proj1 (round_end_restarts_or_advances (dieRollRules (Rejected VNull))
                    0 playing2 (fun _ _ => Rejected VNull) player1
                    eq_refl eq_refl
                    ltac:(intros hs [= <-] g r; eexists; split; reflexivity)))
      with (e := VNull).
    reflexivity.
  - apply (proj1 (proj2 (round_end_restarts_or_advances
                    (roundEndRules (Fulfilled tt))
                    0 playing2 (fun _ _ => Fulfilled tt) player1
                    eq_refl eq_refl ltac:(intros hs Hhs; discriminate Hhs)))).
    + reflexivity.
    + intros m Hm. discriminate Hm.
  - apply (proj2 (proj2 (round_end_restarts_or_advances
                    (roundEndRules (Fulfilled tt))
                    0 (set_maxRounds (Some 1) playing2) (fun _ _ => Fulfilled tt)
                    player1 eq_refl eq_refl
                    ltac:(intros hs Hhs; discriminate Hhs))))
      with (m := 1) (he := fun _ payload => Fulfilled payload);
      [reflexivity|reflexivity|lia|vm_compute; reflexivity|reflexivity|reflexivity].
Defined.

(** ** Whose turn it is *)

Lemma turn_inv_set_turn t p g :
  findPlayer g (lookupZ (playerOrder g) (t - 1)) = Some p ->
  turn_inv (set_turn (mkTurn t (Some (_id p))) g).
Proof.
  intros Hfind _. simpl. apply findPlayer_Some in Hfind as [Hid _].
  symmetry. exact Hid.
Qed.

#[local] Hint Resolve turn_inv_set_turn : core.

(** C7, as amended. [turn.player_id] is [playerOrder[turn.number - 1]]
    whenever [turn.number > 0], in every state the game reaches through
    its constructor, [init], [readyUp], [playerMove], the turn and round
    steps ([start], [startRound], [nextRound], [startTurn], [nextTurn],
    [onEnd]), and [setPlayerTurnOrder] called while no turn is running
    ([turn.number] is 0). *)
Theorem turn_holder_invariant rs RANDOM g :
  reachable rs RANDOM g -> turn_inv g.
Proof.
  induction 1 as [game_name room | fuel g _ IH | random order g _ IH Hzero
                 | fuel id payload g _ IH | fuel player move g _ IH
                 | fuel g _ IH | fuel n g _ IH | fuel g _ IH | fuel t g _ IH
                 | fuel b g _ IH | payload g _ IH].
  - intros H. simpl in H. lia.
  - revert IH. apply preserves_init; auto.
  - intros H. exfalso.
    destruct order as [ids|v]; simpl in H; lia.
  - revert IH. apply preserves_readyUp; auto.
  - revert IH. apply preserves_playerMove; auto.
  - revert IH. apply preserves_start; auto.
  - revert IH. apply preserves_lifecycle; auto.
  - revert IH. apply preserves_lifecycle; auto.
  - revert IH. apply preserves_lifecycle; auto.
  - revert IH. apply preserves_lifecycle; auto.
  - revert IH. apply preserves_onEnd; auto.
Qed.

Lemma turn_holder_invariant_witness :
  reachable testRules (VStr "random")
    (playerMove testRules 3 player1 VNull (init testRules 3 fresh2).1).1 /\
  turn_inv (playerMove testRules 3 player1 VNull (init testRules 3 fresh2).1).1.
Proof.
  assert (H : reachable testRules (VStr "random")
                (playerMove testRules 3 player1 VNull (init testRules 3 fresh2).1).1)
    by (apply reach_playerMove, reach_init, reach_new).
  split; [exact H|].
  exact (turn_holder_invariant testRules (VStr "random") _ H).
Defined.

(** C7 as it is stated fails for [setPlayerTurnOrder]: it replaces
    [playerOrder] and leaves [turn] alone. After [init] has started the
    game of two players, it is turn 1 of player "1"; putting "2" first in
    the order leaves [turn.player_id] at "1", which is no longer
    [playerOrder[0]]. *)
Lemma setPlayerTurnOrder_counterexample :
  ~ (forall rs RANDOM random order g,
       reachable rs RANDOM g ->
       turn_inv (setPlayerTurnOrder RANDOM random order g)).
Proof.
  intros H.
  specialize (H testRules (VStr "random") (fun _ => 0%nat)
                (OrderArray ["2"; "1"]) playing2
                (reach_init _ _ 3%nat _ (reach_new _ _ "test" ["1"; "2"]))).
  unfold turn_inv in H. vm_compute in H.
  specialize (H eq_refl). discriminate H.
Qed.

(** ** Ready-up with a hook that returns a plain value *)

Lemma players_after_start rs fuel g : players (start rs fuel g).1 = players g.
Proof.
  unfold start. unfold bind at 1, modify at 1.
  apply (preserves_bind (P := fun g' => players g' = players g));
    [| |reflexivity].
  - apply preserves_lifecycle; auto.
  - intros; apply preserves_ret.
Qed.

Lemma players_after_executeReady rs fuel id g :
  players (executeReady rs fuel id g).1 = mark_ready id (players g).
Proof.
  unfold executeReady.
  unfold bind at 1, modify at 1. unfold bind at 1, tell at 1, modify at 1.
  unfold bind at 1, get at 1.
  destruct (_ =? _)%nat; [|reflexivity].
  rewrite players_after_start. reflexivity.
Qed.

Lemma find_mark_ready id ps p :
  List.find (fun q => String.eqb (_id q) id) ps = Some p ->
  List.find (fun q => String.eqb (_id q) id) (mark_ready id ps)
  = Some (mkPlayer (_id p) true).
Proof.
  induction ps as [|q ps IH]; simpl; [discriminate|].
  destruct (String.eqb (_id q) id) eqn:Heq.
  - intros [= ->]. simpl. rewrite Heq. reflexivity.
  - intros H. simpl. rewrite Heq. apply IH, H.
Qed.

Lemma mark_ready_other id ps q :
  q ∈ ps -> _id q <> id -> q ∈ mark_ready id ps.
Proof.
  induction ps as [|p ps IH]; intros Hq Hne; [exact Hq|].
  simpl. apply elem_of_cons in Hq as [->|Hq].
  - apply String.eqb_neq in Hne. rewrite Hne. left.
  - destruct (String.eqb (_id p) id); right; auto.
Qed.

Lemma executeReady_not_last rs fuel id g q :
  q ∈ players g -> _id q <> id -> ready q = false ->
  (executeReady rs fuel id g).2 = Returns tt.
Proof.
  intros Hq Hne Hr. unfold executeReady.
  unfold bind at 1, modify at 1. unfold bind at 1, tell at 1, modify at 1.
  unfold bind at 1, get at 1. cbn [players log set_players].
  pose proof (mark_ready_other id (players g) q Hq Hne) as Hin.
  apply list_elem_of_In in Hin.
  assert (In q (List.filter (fun p => negb (ready p)) (mark_ready id (players g))))
    as Hf by (apply filter_In; split; [exact Hin|rewrite Hr; reflexivity]).
  destruct (List.filter _ _) as [|x xs]; [destruct Hf|reflexivity].
Qed.

Lemma readyUp_plain rs fuel g id payload h v player :
  handleReadyUp rs = Some h -> h g id payload = Plain v ->
  started g = false -> findPlayer g (Some id) = Some player ->
  ready player = false ->
  readyUp rs fuel id payload g
  = match get_prop v "then" with
    | Some VUndefined =>
        if truthy v
        then (executeReady rs fuel id;; ret (Plain v))
               (log (Called (CallHandleReadyUp id payload)) g)
        else (log (Called (CallHandleReadyUp id payload)) g, Returns (Plain v))
    | _ => (log (Called (CallHandleReadyUp id payload)) g, Throws TypeError)
    end.
Proof.
  intros Hh Hv Hst Hfind Hr. unfold readyUp.
  unfold bind at 1, get at 1. rewrite Hst, Hfind, Hr, Hh.
  unfold bind at 1, call at 1. rewrite Hv.
  destruct (get_prop v "then") as [[]|]; try reflexivity.
  destruct (truthy v); reflexivity.
Qed.

(** C8, as amended. Let [handleReadyUp] return a value that is not a
    promise, for a player of the game who is not ready, before the start.
    - If the value is truthy and has no [then] member ([true], for one),
      the player's ready flag is set, and the value is what [readyUp]
      returns: always when another player is still not ready, and
      otherwise whenever the start of the game, which this call then runs,
      returns.
    - If the value is falsy, whichever it is, no ready flag changes; when
      it is [false], 0 or the empty string it is what [readyUp] returns. *)
Theorem readyUp_plain_return rs fuel g id payload h v player :
  handleReadyUp rs = Some h -> h g id payload = Plain v ->
  started g = false -> findPlayer g (Some id) = Some player ->
  ready player = false ->
  (truthy v = true -> get_prop v "then" = Some VUndefined ->
   ready <$> findPlayer (readyUp rs fuel id payload g).1 (Some id) = Some true /\
   (forall x, (readyUp rs fuel id payload g).2 = Returns x -> x = Plain v) /\
   (forall q, q ∈ players g -> _id q <> id -> ready q = false ->
    (readyUp rs fuel id payload g).2 = Returns (Plain v))) /\
  (truthy v = false ->
   players (readyUp rs fuel id payload g).1 = players g /\
   started (readyUp rs fuel id payload g).1 = false /\
   (get_prop v "then" = Some VUndefined ->
    (readyUp rs fuel id payload g).2 = Returns (Plain v))).
Proof.
  intros Hh Hv Hst Hfind Hr.
  rewrite (readyUp_plain rs fuel g id payload h v player Hh Hv Hst Hfind Hr).
  split.
  - intros Ht Hthen. rewrite Hthen, Ht. split; [|split].
    + rewrite bind_ret_fst. cbn [findPlayer].
      rewrite players_after_executeReady. cbn [players log].
      simpl in Hfind. rewrite (find_mark_ready id _ player Hfind). reflexivity.
    + intros x. unfold bind.
      destruct (executeReady rs fuel id _) as [g1 [[]| |]]; simpl; congruence.
    + intros q Hq Hne Hrq. unfold bind.
      pose proof (executeReady_not_last rs fuel id
                    (log (Called (CallHandleReadyUp id payload)) g) q Hq Hne Hrq)
        as Hret.
      destruct (executeReady rs fuel id _) as [g1 c]. simpl in Hret.
      rewrite Hret. reflexivity.
  - intros Hf. rewrite Hf.
    destruct (get_prop v "then") as [[]|]; simpl; auto; repeat split; auto; discriminate.
Qed.

Lemma readyUp_plain_return_witness :
  (ready <$> findPlayer (readyUp (plainReadyRules (VBool true)) 3 "1" VNull waiting2).1
               (Some "1") = Some true /\
   (readyUp (plainReadyRules (VBool true)) 3 "1" VNull waiting2).2
   = Returns (Plain (VBool true))) /\
  (players (readyUp (plainReadyRules (VBool false)) 3 "1" VNull waiting2).1
   = players waiting2 /\
   (readyUp (plainReadyRules (VBool false)) 3 "1" VNull waiting2).2
   = Returns (Plain (VBool false))).
Proof.
  split.
  - destruct (proj1 (readyUp_plain_return (plainReadyRules (VBool true)) 3
                       waiting2 "1" VNull (fun _ _ _ => Plain (VBool true))
                       (VBool true) player1
                       eq_refl eq_refl eq_refl eq_refl eq_refl)
                eq_refl eq_refl) as (Hflag & _ & Hret).
    split; [exact Hflag|].
    apply (Hret player2); [|discriminate|reflexivity].
    apply list_elem_of_In. right. left. reflexivity.
  - destruct (proj2 (readyUp_plain_return (plainReadyRules (VBool false)) 3
                       waiting2 "1" VNull (fun _ _ _ => Plain (VBool false))
                       (VBool false) player1
                       eq_refl eq_refl eq_refl eq_refl eq_refl)
                eq_refl) as (Hps & _ & Hret).
    split; [exact Hps|]. apply Hret. reflexivity.
Defined.

(** C8 as it is stated fails for a void return: [readyUp] reads
    [handle.then] first, which throws on [undefined], and the player is
    not marked ready. *)
Lemma void_readyUp_counterexample :
  ~ (forall rs fuel g id payload h v player,
       handleReadyUp rs = Some h -> h g id payload = Plain v ->
       started g = false -> findPlayer g (Some id) = Some player ->
       ready player = false ->
       v = VUndefined \/ v = VBool true ->
       ready <$> findPlayer (readyUp rs fuel id payload g).1 (Some id)
       = Some true).
Proof.
  intros H.
  specialize (H (plainReadyRules VUndefined) 3%nat waiting2 "1" VNull
                _ VUndefined player1 eq_refl eq_refl eq_refl eq_refl eq_refl
                (or_introl eq_refl)).
  vm_compute in H. discriminate H.
Qed.

(** ** Turn order *)

Lemma swap_Permutation {A} (arr : list A) a b : swap arr a b ≡ₚ arr.
Proof.
  unfold swap.
  destruct (arr !! a) as [x|] eqn:Ha; [|reflexivity].
  destruct (arr !! b) as [y|] eqn:Hb; [|reflexivity].
  apply Permutation_insert_swap; assumption.
Qed.

Lemma shuffle_from_Permutation {A} random i (arr : list A) :
  shuffle_from random i arr ≡ₚ arr.
Proof.
  revert arr. induction i as [|i IH]; intros arr; [reflexivity|].
  cbn [shuffle_from]. rewrite IH. apply swap_Permutation.
Qed.

Lemma shuffle_Permutation {A} random (arr : list A) :
  shuffle random arr ≡ₚ arr.
Proof. apply shuffle_from_Permutation. Qed.

Lemma strict_eq_refl v : is_primitive v = true -> strict_eq v v = true.
Proof.
  destruct v; simpl; try discriminate; intros _; auto.
  - destruct b; reflexivity.
  - apply Z.eqb_refl.
  - apply String.eqb_refl.
Qed.

(** C9. Called with the randomization token [PLAYER_ORDER.RANDOM] (a
    primitive constant), [setPlayerTurnOrder] makes [playerOrder] a
    permutation of the identifiers of the current players, whatever
    [Math.random] returns; called with an array it makes [playerOrder] that
    array. The players themselves are not touched. *)
Theorem setPlayerTurnOrder_result RANDOM random g :
  is_primitive RANDOM = true ->
  playerOrder (setPlayerTurnOrder RANDOM random (OrderValue RANDOM) g)
  ≡ₚ map _id (players g) /\
  (forall ids,
     playerOrder (setPlayerTurnOrder RANDOM random (OrderArray ids) g) = ids) /\
  (forall order,
     players (setPlayerTurnOrder RANDOM random order g) = players g).
Proof.
  intros Hprim. split; [|split].
  - simpl. rewrite (strict_eq_refl RANDOM Hprim).
    apply fmap_Permutation, shuffle_Permutation.
  - reflexivity.
  - intros [ids|v]; reflexivity.
Qed.

Lemma setPlayerTurnOrder_result_witness :
  playerOrder (setPlayerTurnOrder (VStr "random") (fun _ => 0%nat)
                 (OrderValue (VStr "random")) playing2)
  ≡ₚ ["1"; "2"] /\
  playerOrder (setPlayerTurnOrder (VStr "random") (fun _ => 0%nat)
                 (OrderArray ["2"; "1"]) playing2) = ["2"; "1"].
Proof.
  destruct (setPlayerTurnOrder_result (VStr "random") (fun _ => 0%nat) playing2
              eq_refl) as (Hperm & Hexact & _).
  split; [exact Hperm|apply Hexact].
Defined.

(** ** Ready-up by a stranger *)

(** C10, as amended. [readyUp] with an identifier that no player of the
    game has: while the game has not started, [findPlayer] finds nobody,
    reading [ready] of the result throws a TypeError, and the state is
    left as it was, so nobody is marked ready and no hook runs; once the
    game has started the call returns [false], the state again
    untouched. *)
Theorem readyUp_unknown_player rs fuel id payload g :
  id ∉ map _id (players g) ->
  (started g = false ->
   readyUp rs fuel id payload g = (g, Throws TypeError)) /\
  (started g = true ->
   readyUp rs fuel id payload g = (g, Returns (Plain (VBool false)))).
Proof.
  intros Hni. unfold readyUp, bind, get.
  split; intros ->; [|reflexivity].
  rewrite (findPlayer_None g id Hni). reflexivity.
Qed.

Lemma readyUp_unknown_player_witness :
  readyUp readyRules 3 "ghost" VNull waiting2 = (waiting2, Throws TypeError) /\
  readyUp testRules 3 "ghost" VNull playing2
  = (playing2, Returns (Plain (VBool false))).
Proof.
  assert (Hw : "ghost" ∉ map _id (players waiting2))
    by (apply (bool_decide_unpack _); vm_compute; exact I).
  assert (Hp : "ghost" ∉ map _id (players playing2))
    by (apply (bool_decide_unpack _); vm_compute; exact I).
  split.
  - apply (proj1 (readyUp_unknown_player readyRules 3 "ghost" VNull waiting2 Hw)).
    reflexivity.
  - apply (proj2 (readyUp_unknown_player testRules 3 "ghost" VNull playing2 Hp)).
    reflexivity.
Defined.

(** C10 as it is stated fails once the game has started: [readyUp]
    returns [false] before it looks the player up. *)
Lemma readyUp_unknown_player_counterexample :
  ~ (forall rs fuel id payload g,
       id ∉ map _id (players g) ->
       (readyUp rs fuel id payload g).2 <> Returns (Plain (VBool false))).
Proof.
  intros H.
  apply (H testRules 3%nat "ghost" VNull playing2).
  - apply (bool_decide_unpack _). vm_compute. exact I.
  - reflexivity.
Qed.

(** * Further properties of the controller *)

(** ** What a call can change *)

Section MethodCalls.

Context {P : Game -> Prop}.
Variable rs : Rules.
Variable RANDOM : value.

Hypothesis P_log : forall e g, P g -> P (log e g).
Hypothesis P_round : forall r g, P g -> P (set_round r g).
Hypothesis P_endResults : forall v g, P g -> P (set_endResults v g).
Hypothesis P_turn : forall t p g,
  P g -> findPlayer g (lookupZ (playerOrder g) (t - 1)) = Some p ->
  P (set_turn (mkTurn t (Some (_id p))) g).
Hypothesis P_started : forall g, P g -> P (set_started true g).
Hypothesis P_ready : forall id g,
  P g -> P (set_players (mark_ready id (players g)) g).
Hypothesis P_moves : forall m g, P g -> P (set_moves (moves g ++ [m]) g).
Hypothesis P_init_players : forall g,
  P g -> P (set_players (map createPlayer (room_players g)) g).
Hypothesis P_settings : forall v g, P g -> P (set_settings v g).
Hypothesis P_order : forall o g, P g -> P (set_playerOrder o g).

Lemma method_call_keeps g g' : method_call rs RANDOM g g' -> P g -> P g'.
Proof.
  intros [fuel g0 | random order g0 | fuel id payload g0 | fuel player move g0
         | fuel g0 | fuel n g0 | fuel g0 | fuel t g0 | fuel b g0 | payload g0].
  - apply preserves_init; auto.
  - destruct order as [ids|v]; simpl; auto.
  - apply preserves_readyUp; auto.
  - apply preserves_playerMove; auto.
  - apply preserves_start; auto.
  - apply preserves_lifecycle; auto.
  - apply preserves_lifecycle; auto.
  - apply preserves_lifecycle; auto.
  - apply preserves_lifecycle; auto.
  - apply preserves_onEnd; auto.
Qed.

Lemma lifetime_keeps g g' : lifetime rs RANDOM g g' -> P g -> P g'.
Proof.
  induction 1 as [|g1 g2 g3 Hstep _ IH]; [auto|].
  intros Hg. apply IH. eapply method_call_keeps; eauto.
Qed.

End MethodCalls.

(** X1. The move log only grows: whatever methods are called on a game,
    with whatever arguments and rule set, the moves it had recorded are
    still there, in the same order, at the front of [moves]. *)
Theorem moves_append_only rs RANDOM g g' :
  lifetime rs RANDOM g g' -> moves g `prefix_of` moves g'.
Proof.
  intros Hlife.
  apply (lifetime_keeps (P := fun x => moves g `prefix_of` moves x) rs RANDOM)
    with (g := g); auto.
  intros m x Hx. simpl. apply prefix_app_r, Hx.
Qed.

Lemma moves_append_only_witness :
  lifetime testRules (VStr "random") playing2
    (playerMove testRules 3 player2 VNull
       (playerMove testRules 3 player1 VNull playing2).1).1 /\
  moves playing2
  `prefix_of` moves (playerMove testRules 3 player2 VNull
                       (playerMove testRules 3 player1 VNull playing2).1).1.
Proof.
  assert (H : lifetime testRules (VStr "random") playing2
                (playerMove testRules 3 player2 VNull
                   (playerMove testRules 3 player1 VNull playing2).1).1).
  { eapply life_call; [apply call_playerMove|].
    eapply life_call; [apply call_playerMove|]. apply life_same. }
  split; [exact H|].
  exact (moves_append_only testRules (VStr "random") _ _ H).
Defined.

Lemma lookupZ_Some_nonneg {A} (l : list A) i x : lookupZ l i = Some x -> 0 <= i.
Proof.
  unfold lookupZ. destruct (i <? 0) eqn:Hi; [discriminate|].
  intros _. apply Z.ltb_ge, Hi.
Qed.

(** X2. A game that has started stays started, and once a turn runs the
    turn number never returns to 0 (it stays at least 1), whatever methods
    are called afterwards: the "Game has not started." guard of
    [playerMove] cannot fire again. *)
Theorem started_for_good rs RANDOM g g' :
  lifetime rs RANDOM g g' ->
  (started g = true -> started g' = true) /\
  (1 <= t_number (turn g) -> 1 <= t_number (turn g')).
Proof.
  intros Hlife. split; intros Hg.
  - apply (lifetime_keeps (P := fun x => started x = true) rs RANDOM)
      with (g := g); auto.
  - apply (lifetime_keeps (P := fun x => 1 <= t_number (turn x)) rs RANDOM)
      with (g := g); auto.
    intros t p x _ Hfind. simpl.
    destruct (lookupZ (playerOrder x) (t - 1)) as [i|] eqn:Hi; [|discriminate].
    apply lookupZ_Some_nonneg in Hi. lia.
Qed.

Lemma started_for_good_witness :
  started (playerMove testRules 3 player1 VNull playing2).1 = true /\
  1 <= t_number (turn (playerMove testRules 3 player1 VNull playing2).1).
Proof.
  assert (H : lifetime testRules (VStr "random") playing2
                (playerMove testRules 3 player1 VNull playing2).1).
  { eapply life_call; [apply call_playerMove|]. apply life_same. }
  destruct (started_for_good testRules (VStr "random") _ _ H) as [Hs Ht].
  split; [apply Hs; reflexivity|apply Ht; vm_compute; discriminate].
Defined.



Lemma same_setup_lifecycle rs fuel g :
  (forall t, same_setup g (startTurn rs fuel t g).1) /\
  (forall restart, same_setup g (nextTurn rs fuel restart g).1) /\
  same_setup g (nextRound rs fuel g).1 /\
  (forall n, same_setup g (startRound rs fuel n g).1) /\
  (forall payload, same_setup g (onEnd rs payload g).1).
Proof.
  assert (Hsame : same_setup g g) by (unfold same_setup; tauto).
  assert (Hlog : forall e x, same_setup g x -> same_setup g (log e x)) by auto.
  assert (Hround : forall r x, same_setup g x -> same_setup g (set_round r x))
    by auto.
  assert (Hend : forall v x, same_setup g x -> same_setup g (set_endResults v x))
    by auto.
  assert (Hturn : forall t p x, same_setup g x ->
            findPlayer x (lookupZ (playerOrder x) (t - 1)) = Some p ->
            same_setup g (set_turn (mkTurn t (Some (_id p))) x)) by auto.
  destruct (preserves_lifecycle (P := same_setup g) Hlog Hround Hend Hturn
              rs fuel) as (H1 & H2 & H3 & H4).
  split; [intros t; apply H1, Hsame|].
  split; [intros b; apply H2, Hsame|].
  split; [apply H3, Hsame|].
  split; [intros n; apply H4, Hsame|].
  intros payload. apply (preserves_onEnd (P := same_setup g)); auto.
Qed.

(** X4. Starting and advancing turns and rounds, and ending the game,
    change the round, the turn, the end results and the trace only: the
    players, their order, the moves, the settings, [maxRounds], [started]
    and the name are what they were, whatever the hooks answer. *)
Theorem advancement_keeps_setup rs fuel g :
  (forall t, same_setup g (startTurn rs fuel t g).1) /\
  (forall restart, same_setup g (nextTurn rs fuel restart g).1) /\
  same_setup g (nextRound rs fuel g).1 /\
  (forall n, same_setup g (startRound rs fuel n g).1) /\
  (forall payload, same_setup g (onEnd rs payload g).1).
Proof. apply same_setup_lifecycle. Qed.

Lemma mark_ready_readied id ps0 ps :
  Forall2 (readied id) ps0 ps -> Forall2 (readied id) ps0 (mark_ready id ps).
Proof.
  induction 1 as [|p p' ps0 ps Hp Htl IH]; [constructor|].
  simpl. destruct (String.eqb_spec (_id p') id) as [Hid|Hne].
  - constructor; [|exact Htl]. right.
    destruct Hp as [->|[Hp ->]]; simpl in *; auto.
  - constructor; assumption.
Qed.

Lemma readyUp_players rs fuel id payload g :
  players (readyUp rs fuel id payload g).1 = players g \/
  players (readyUp rs fuel id payload g).1 = mark_ready id (players g).
Proof.
  remember (readyUp rs fuel id payload g) as r eqn:Hr.
  unfold readyUp in Hr. unfold bind at 1, get at 1 in Hr.
  destruct (started g); [subst r; auto|].
  destruct (findPlayer g (Some id)) as [player|]; [|subst r; auto].
  destruct (ready player); [subst r; auto|].
  destruct (handleReadyUp rs) as [h|].
  - unfold bind at 1, call at 1 in Hr. destruct (h g id payload) as [v|p].
    + destruct (get_prop v "then") as [[]|]; try (subst r; auto; fail).
      destruct (truthy v); [|subst r; auto].
      right. subst r. rewrite bind_ret_fst.
      apply (players_after_executeReady rs fuel id
               (log (Called (CallHandleReadyUp id payload)) g)).
    + subst r. rewrite bind_ret_map_fst. destruct p as [v| |]; simpl; auto.
      right. rewrite settle_fst, bind_ret_fst.
      apply (players_after_executeReady rs fuel id
               (log (Called (CallHandleReadyUp id payload)) g)).
  - right. subst r. rewrite bind_ret_fst. apply players_after_executeReady.
Qed.

(** X5. [readyUp] never takes a ready flag back and never touches another
    player: every player of the game is afterwards as before, or is a
    player with the caller's identifier who is now ready. The list keeps
    its length and order, and [moves], [playerOrder] and the settings are
    untouched. *)
Theorem readyUp_only_readies rs fuel id payload g :
  Forall2 (readied id) (players g) (players (readyUp rs fuel id payload g).1) /\
  moves (readyUp rs fuel id payload g).1 = moves g /\
  playerOrder (readyUp rs fuel id payload g).1 = playerOrder g /\
  settings (readyUp rs fuel id payload g).1 = settings g.
Proof.
  assert (Hrefl : Forall2 (readied id) (players g) (players g)).
  { apply Forall2_same_length_lookup_2; [reflexivity|].
    intros i p p' Hp Hp'. left. congruence. }
  split.
  - destruct (readyUp_players rs fuel id payload g) as [-> | ->];
      [exact Hrefl|apply mark_ready_readied, Hrefl].
  - apply (preserves_readyUp
             (P := fun x => moves x = moves g /\ playerOrder x = playerOrder g /\
                            settings x = settings g)); auto.
Qed.

(** ** Rounds never go back *)

Lemma playerMove_state rs fuel player move g :
  (playerMove rs fuel player move g).1 = g \/
  (playerMove rs fuel player move g).1 = log (Called (CallHandleMove move)) g \/
  exists v,
    (playerMove rs fuel player move g).1
    = (nextTurn rs fuel false (move_recorded player move v g)).1.
Proof.
  destruct (truthy (endResults g)) eqn:Hend.
  { rewrite playerMove_ended by exact Hend. auto. }
  destruct (Z.eq_dec (t_number (turn g)) 0) as [Hz|Hnz].
  { rewrite playerMove_not_started by auto. auto. }
  destruct (decide (Some (_id player) = t_player_id (turn g))) as [Heq|Hne].
  2: { rewrite playerMove_not_allowed by auto. auto. }
  rewrite playerMove_guards_pass by assumption.
  destruct (handleMove rs) as [h|]; [|auto].
  destruct (h g move) as [v| |]; simpl; auto.
  right. right. exists v. rewrite settle_fst.
  unfold recordMove, bind, get, tell, modify, ret. cbn [round turn moves log].
  fold (recorded player v g). fold (move_recorded player move v g).
  destruct (nextTurn rs fuel false _) as [g3 [r| |]]; reflexivity.
Qed.

Section RoundFloor.

Variable rs : Rules.
Hypothesis hook_keeps_number : keeps_number rs.
Variable k : Z.

Let above (g : Game) : Prop := k <= r_number (round g).

Lemma round_floor_lifecycle fuel :
  (forall t, preserves above (startTurn rs fuel t)) /\
  (forall b, preserves above (nextTurn rs fuel b)) /\
  preserves above (nextRound rs fuel) /\
  (forall n, k <= n -> preserves above (startRound rs fuel n)).
Proof.
  assert (Hlog : forall e g, above g -> above (log e g)) by auto.
  assert (Hend : forall v g, above g -> above (set_endResults v g)) by auto.
  assert (HonEnd : forall payload, preserves above (onEnd rs payload)).
  { intros payload. unfold onEnd. destruct (handleEnd rs) as [h|];
      [|apply preserves_throw].
    apply preserves_bind; [intros g Hg; exact Hg|]. intros p.
    apply preserves_then. intros results.
    repeat (apply preserves_bind; intros);
      try apply preserves_ret; apply preserves_modify; auto. }
  induction fuel as [|fuel (IHst & IHnt & IHnr & IHsr)].
  { repeat split; intros; apply preserves_diverge. }
  assert (HnextT : preserves above
            (let* g := get in
             if t_number (turn g) + 1 >? Z.of_nat (length (playerOrder g))
             then nextRound rs fuel
             else startTurn rs fuel (t_number (turn g) + 1))).
  { apply preserves_bind_get. intros g Hg.
    destruct (_ >? _); [apply IHnr | apply IHst]; exact Hg. }
  assert (HnextR : preserves above
            (let* g := get in
             if maxRounds_exceeded (maxRounds g) (r_number (round g) + 1)
             then let* p := onEnd rs VUndefined in ret (Promised p)
             else startRound rs fuel (r_number (round g) + 1))).
  { apply preserves_bind_get. intros g Hg.
    destruct (maxRounds_exceeded _ _).
    - apply preserves_bind; [apply HonEnd| |exact Hg].
      intros; apply preserves_ret.
    - apply IHsr; [unfold above in Hg; lia|exact Hg]. }
  split; [|split; [|split]].
  - intros t. cbn [startTurn]. apply preserves_bind_get. intros g Hg.
    destruct (findPlayer g _) as [player|]; [|apply IHnt, Hg].
    apply preserves_bind; [apply preserves_modify; auto| |exact Hg]. intros _.
    apply preserves_bind.
    { destruct (handleTurnStart rs); [|apply preserves_ret].
      apply preserves_bind_get. intros; apply preserves_modify; auto. }
    intros _. apply preserves_bind_get. intros g' Hg'.
    apply preserves_bind; [apply preserves_modify; auto| |exact Hg'].
    intros; apply preserves_ret.
  - intros b. cbn [nextTurn].
    destruct b; [exact HnextT|].
    destruct (handleTurnEnd rs) as [h|]; [|exact HnextT].
    apply preserves_bind_get. intros g Hg.
    apply preserves_bind; [intros x Hx; exact Hx| |exact Hg]. intros p.
    apply preserves_bind; [apply preserves_then; intros; exact HnextT|].
    intros q. apply preserves_bind; [|intros; apply preserves_ret].
    apply preserves_catch. intros payload.
    destruct (is_error payload).
    + apply preserves_bind; [apply preserves_modify; auto|intros; apply preserves_ret].
    + apply preserves_bind; [apply HonEnd|intros; apply preserves_ret].
  - cbn [nextRound]. destruct (handleRoundEnd rs) as [h|]; [|exact HnextR].
    apply preserves_bind_get. intros g Hg.
    apply preserves_bind; [intros x Hx; exact Hx| |exact Hg]. intros p.
    apply preserves_bind; [apply preserves_then; intros; exact HnextR|].
    intros q. apply preserves_bind; [|intros; apply preserves_ret].
    apply preserves_catch. intros _.
    apply preserves_bind_get. intros g' Hg'. apply IHsr; [exact Hg'|exact Hg'].
  - intros n Hn. cbn [startRound]. intros g _.
    unfold bind at 1, modify at 1.
    destruct (handleRoundStart rs) as [hs|] eqn:Hhs.
    2: { apply IHst. unfold above. simpl. exact Hn. }
    unfold bind at 1, get at 1. unfold bind at 1, call at 1.
    cbn [round set_round].
    destruct (hook_keeps_number hs Hhs (set_round (mkRound n []) g) (mkRound n []))
      as (r' & -> & Hnum).
    rewrite bind_ret_map_fst. unfold then_. rewrite settle_fst.
    unfold bind at 1, modify at 1. rewrite bind_ret_fst.
    apply IHst. unfold above. simpl in *. lia.
Qed.

End RoundFloor.

(** X6. When the round-start hook, if there is one, keeps the number of
    the round it is given, [round.number] never decreases through a move
    or any turn or round advancement: after [playerMove], [nextTurn],
    [nextRound] or [startTurn] it is at least what it was. *)
Theorem round_number_never_decreases rs fuel g :
  keeps_number rs ->
  (forall player move,
     r_number (round g) <= r_number (round (playerMove rs fuel player move g).1)) /\
  (forall restart,
     r_number (round g) <= r_number (round (nextTurn rs fuel restart g).1)) /\
  r_number (round g) <= r_number (round (nextRound rs fuel g).1) /\
  (forall t, r_number (round g) <= r_number (round (startTurn rs fuel t g).1)).
Proof.
  intros Hkeep.
  destruct (round_floor_lifecycle rs Hkeep (r_number (round g)) fuel)
    as (Hst & Hnt & Hnr & _).
  split; [|split; [|split]].
  - intros player move.
    destruct (playerMove_state rs fuel player move g) as [-> | [-> | [v ->]]];
      [reflexivity|reflexivity|].
    apply Hnt. simpl. reflexivity.
  - intros b. apply Hnt. simpl. reflexivity.
  - apply Hnr. simpl. reflexivity.
  - intros t. apply Hst. simpl. reflexivity.
Qed.

Lemma round_number_never_decreases_witness :
  r_number (round playing2)
  <= r_number (round (nextRound (dieRollRules (Fulfilled tt)) 3 playing2).1).
Proof.
  apply (round_number_never_decreases (dieRollRules (Fulfilled tt)) 3 playing2).
  intros hs [= <-] g r. eexists. split; reflexivity.
Defined.

(** ** Order entries that are no players *)








(** ** [init] and the settings *)

Lemma assoc_put_prop k k' v fs :
  assoc k (put_prop k' v fs) = if String.eqb k' k then Some v else assoc k fs.
Proof.
  induction fs as [|[k1 v1] fs IH]; simpl.
  - destruct (String.eqb k' k); reflexivity.
  - destruct (String.eqb_spec k1 k') as [->|Hne]; simpl.
    + destruct (String.eqb k' k); reflexivity.
    + rewrite IH. destruct (String.eqb_spec k1 k) as [->|Hne'];
        [|reflexivity].
      apply String.eqb_neq in Hne. rewrite String.eqb_sym, Hne. reflexivity.
Qed.

Lemma assoc_None k fs : k ∉ map fst fs -> assoc k fs = None.
Proof.
  induction fs as [|[k1 v1] fs IH]; simpl; [reflexivity|].
  intros Hni. destruct (String.eqb_spec k1 k) as [->|Hne].
  - exfalso. apply Hni. left.
  - apply IH. intros Hin. apply Hni. right. exact Hin.
Qed.

Lemma assoc_fold_put k kvs : forall acc,
  NoDup (map fst kvs) ->
  assoc k (fold_left (fun acc kv => put_prop kv.1 kv.2 acc) kvs acc)
  = match assoc k kvs with Some v => Some v | None => assoc k acc end.
Proof.
  induction kvs as [|[k1 v1] kvs IH]; intros acc Hnd; simpl; [reflexivity|].
  apply NoDup_cons in Hnd as [Hk1 Hnd].
  rewrite IH by exact Hnd. rewrite assoc_put_prop.
  destruct (String.eqb_spec k1 k) as [->|Hne]; [|reflexivity].
  rewrite (assoc_None k kvs Hk1). reflexivity.
Qed.

Lemma assoc_object_assign k a fs :
  NoDup (map fst a) -> NoDup (map fst fs) ->
  assoc k (object_assign a (VObj fs))
  = match assoc k fs with Some v => Some v | None => assoc k a end.
Proof.
  intros Ha Hfs. unfold object_assign. cbn [own_props].
  rewrite assoc_fold_put by exact Hfs.
  rewrite assoc_fold_put by exact Ha.
  destruct (assoc k a); reflexivity.
Qed.

Lemma init_plain_settings rs fuel g s fs :
  setup rs = Some s ->
  s (set_players (map createPlayer (room_players g)) g) = Plain (VObj fs) ->
  assoc "then" fs = None ->
  (init rs fuel g).1
  = (if strict_eq (default VUndefined (assoc "readyUp" fs)) (VBool false)
     then (start rs fuel
             (log (BroadcastSecret "game/init")
                (set_settings (object_assign (settings g) (VObj fs))
                   (log (Called CallSetup)
                      (set_players (map createPlayer (room_players g)) g))))).1
     else log (BroadcastSecret "game/init")
            (set_settings (object_assign (settings g) (VObj fs))
               (log (Called CallSetup)
                  (set_players (map createPlayer (room_players g)) g)))).
Proof.
  intros Hs Hret Hthen. unfold init. rewrite Hs.
  unfold bind at 1, modify at 1. unfold bind at 1, call at 1. rewrite Hret.
  cbn [get_prop]. rewrite Hthen. cbn [default]. rewrite bind_ret_fst.
  unfold executeSetup. unfold bind at 1, modify at 1.
  unfold bind at 1, tell at 1, modify at 1. cbn [get_prop settings log set_players].
  destruct (strict_eq _ _); [|reflexivity].
  apply bind_ret_fst.
Qed.

(** X9. [init] with a [setup] that returns a settings object: afterwards
    every setting the object names has the object's value and every other
    setting is what it was; the players are fresh players made from the
    room's, in the room's order, none of them ready; "game/init" has been
    sent; and the game has been started exactly when the object's
    [readyUp] is [false] (otherwise [started] is what it was). *)
Theorem init_with_settings rs fuel g s fs :
  setup rs = Some s ->
  s (set_players (map createPlayer (room_players g)) g) = Plain (VObj fs) ->
  assoc "then" fs = None ->
  NoDup (map fst fs) -> NoDup (map fst (settings g)) ->
  (forall k, assoc k (settings (init rs fuel g).1)
             = match assoc k fs with
               | Some v => Some v
               | None => assoc k (settings g)
               end) /\
  players (init rs fuel g).1 = map createPlayer (room_players g) /\
  BroadcastSecret "game/init" ∈ trace (init rs fuel g).1 /\
  (assoc "readyUp" fs = Some (VBool false) -> started (init rs fuel g).1 = true) /\
  (assoc "readyUp" fs <> Some (VBool false) ->
   started (init rs fuel g).1 = started g).
Proof.
  intros Hs Hret Hthen Hfs Hg.
  rewrite (init_plain_settings rs fuel g s fs Hs Hret Hthen).
  set (g2 := log (BroadcastSecret "game/init") _).
  assert (Hstart : settings (start rs fuel g2).1 = settings g2 /\
                   players (start rs fuel g2).1 = players g2 /\
                   extends (trace g2) (start rs fuel g2).1).
  { apply (preserves_start
             (P := fun x => settings x = settings g2 /\ players x = players g2 /\
                            extends (trace g2) x)).
    - intros e x (? & ? & ?). repeat split; auto using extends_log.
    - intros r x (? & ? & ?). repeat split; auto.
    - intros v x (? & ? & ?). repeat split; auto.
    - intros t p x (? & ? & ?) _. repeat split; auto.
    - intros x (? & ? & ?). repeat split; auto.
    - repeat split. exists []. apply eq_sym, app_nil_r. }
  destruct Hstart as (Hset & Hpl & rest & Hrest).
  assert (Hsettings : forall k, assoc k (settings g2)
            = match assoc k fs with Some v => Some v | None => assoc k (settings g) end).
  { intros k. subst g2. cbn [settings log set_settings].
    apply assoc_object_assign; assumption. }
  assert (Hin : BroadcastSecret "game/init" ∈ trace g2).
  { subst g2. simpl. rewrite !elem_of_app, !elem_of_cons. auto. }
  destruct (strict_eq _ _) eqn:Hrd.
  - split; [intros k; rewrite Hset; apply Hsettings|].
    split; [rewrite Hpl; reflexivity|].
    split; [rewrite Hrest, elem_of_app; auto|].
    split; [intros _; apply started_after_start|].
    intros Hne. exfalso. apply Hne.
    destruct (assoc "readyUp" fs) as [[| |[]| | | |]|]; simpl in Hrd;
      try discriminate; reflexivity.
  - split; [exact Hsettings|]. split; [reflexivity|]. split; [exact Hin|].
    split; [|reflexivity].
    intros Heq. rewrite Heq in Hrd. discriminate Hrd.
Qed.

Lemma init_with_settings_witness :
  assoc "readyUp" (settings (init testRules 3 fresh2).1) = Some (VBool false) /\
  assoc "resultsTimeout" (settings (init testRules 3 fresh2).1)
  = Some (VNum 10000) /\
  started (init testRules 3 fresh2).1 = true.
Proof.
  destruct (init_with_settings testRules 3 fresh2
              (fun _ => Plain (VObj [("readyUp", VBool false)]))
              [("readyUp", VBool false)] eq_refl eq_refl eq_refl
              ltac:(apply (bool_decide_unpack _); vm_compute; exact I)
              ltac:(apply (bool_decide_unpack _); vm_compute; exact I))
    as (Hset & _ & _ & Hst & _).
  split; [exact (Hset "readyUp")|].
  split; [exact (Hset "resultsTimeout")|].
  apply Hst. reflexivity.
Defined.

(** ** Looking a player up *)

(** X10. [findPlayer] returns the first player of the list with the
    identifier it is given; it returns not-found exactly when no player
    has the identifier, and always for [undefined]. It never fails. *)
Theorem findPlayer_first_match g :
  findPlayer g None = None /\
  (forall id, findPlayer g (Some id) = None <-> id ∉ map _id (players g)) /\
  (forall id p,
     findPlayer g (Some id) = Some p <->
     exists before after,
       players g = before ++ p :: after /\ _id p = id /\
       id ∉ map _id before).
Proof.
  split; [reflexivity|]. cbn [findPlayer]. generalize (players g). clear g.
  intros ps. split.
  - intros id. induction ps as [|q ps IH]; simpl.
    + split; [intros _; apply not_elem_of_nil|reflexivity].
    + destruct (String.eqb_spec (_id q) id) as [Hid|Hne].
      * split; [discriminate|]. intros Hni. exfalso. apply Hni. rewrite Hid. left.
      * rewrite IH. rewrite not_elem_of_cons. split; [auto|tauto].
  - intros id p. induction ps as [|q ps IH]; simpl.
    + split; [discriminate|]. intros (before & after & Heq & _).
      destruct before; discriminate Heq.
    + destruct (String.eqb_spec (_id q) id) as [Hid|Hne].
      * split.
        -- intros [= <-]. exists [], ps. split; [reflexivity|].
           split; [exact Hid|]. apply not_elem_of_nil.
        -- intros (before & after & Heq & Hp & Hni).
           destruct before as [|b before]; simpl in Heq.
           ++ congruence.
           ++ exfalso. apply Hni. injection Heq as <- _. simpl. rewrite Hid. left.
      * rewrite IH. split.
        -- intros (before & after & -> & Hp & Hni).
           exists (q :: before), after. split; [reflexivity|].
           split; [exact Hp|]. simpl. rewrite not_elem_of_cons. auto.
        -- intros (before & after & Heq & Hp & Hni).
           destruct before as [|b before]; simpl in Heq.
           ++ injection Heq as -> _. congruence.
           ++ injection Heq as <- ->. exists before, after.
              split; [reflexivity|]. split; [exact Hp|].
              simpl in Hni. rewrite not_elem_of_cons in Hni. tauto.
Qed.

Lemma findPlayer_first_match_witness :
  findPlayer playing2 (Some "2") = Some player2.
Proof.
  destruct (findPlayer_first_match playing2) as (_ & _ & Hfound).
  apply Hfound. exists [player1], []. split; [reflexivity|].
  split; [reflexivity|]. apply (bool_decide_unpack _). vm_compute. exact I.
Defined.


(** ** Readying up through a promise, and twice *)

Lemma readyUp_promised rs fuel g id payload h p player :
  handleReadyUp rs = Some h -> h g id payload = Promised p ->
  started g = false -> findPlayer g (Some id) = Some player ->
  ready player = false ->
  readyUp rs fuel id payload g
  = (let* q := then_ p (fun payload =>
                 executeReady rs fuel id;; ret (Plain payload)) in
     ret (Promised q))
      (log (Called (CallHandleReadyUp id payload)) g).
Proof.
  intros Hh Hp Hst Hfind Hr. unfold readyUp.
  unfold bind at 1, get at 1. rewrite Hst, Hfind, Hr, Hh.
  unfold bind at 1, call at 1. rewrite Hp. reflexivity.
Qed.

(** X11. When [handleReadyUp] answers with a promise, for a player of the
    game who is not ready, before the start, [readyUp] returns a promise
    and follows the hook's:
    - rejected or still pending, nothing but the hook's call is added to
      the state, no player is marked, and the rejection is passed on;
    - fulfilled, with whatever value (a falsy one too, unlike a plain
      return), the player is marked ready and is then found ready, and
      while another player is not ready the promise returned is fulfilled
      with the hook's value. *)
Theorem readyUp_awaits_promise rs fuel g id payload h p player :
  handleReadyUp rs = Some h -> h g id payload = Promised p ->
  started g = false -> findPlayer g (Some id) = Some player ->
  ready player = false ->
  (forall e, p = Rejected e ->
     readyUp rs fuel id payload g
     = (log (Called (CallHandleReadyUp id payload)) g,
        Returns (Promised (Rejected e)))) /\
  (p = Pending ->
     readyUp rs fuel id payload g
     = (log (Called (CallHandleReadyUp id payload)) g,
        Returns (Promised Pending))) /\
  (forall v, p = Fulfilled v ->
     players (readyUp rs fuel id payload g).1 = mark_ready id (players g) /\
     findPlayer (readyUp rs fuel id payload g).1 (Some id)
     = Some (mkPlayer id true) /\
     (forall q, q ∈ players g -> _id q <> id -> ready q = false ->
        (readyUp rs fuel id payload g).2 = Returns (Promised (Fulfilled v)))).
Proof.
  intros Hh Hp Hst Hfind Hr.
  rewrite (readyUp_promised rs fuel g id payload h p player Hh Hp Hst Hfind Hr).
  split; [intros e ->; reflexivity|]. split; [intros ->; reflexivity|].
  intros v ->.
  set (g1 := log (Called (CallHandleReadyUp id payload)) g).
  assert (Hrun : (let* q := then_ (Fulfilled v) (fun payload0 =>
                     executeReady rs fuel id;; ret (Plain payload0)) in
                  ret (Promised q)) g1
                 = match executeReady rs fuel id g1 with
                   | (G, Returns _) => (G, Returns (Promised (Fulfilled v)))
                   | (G, Throws e) => (G, Returns (Promised (Rejected e)))
                   | (G, Diverges) => (G, Diverges)
                   end).
  { unfold bind, then_, ret.
    destruct (executeReady rs fuel id g1) as [G [[]|e|]]; reflexivity. }
  rewrite Hrun. clear Hrun.
  pose proof (players_after_executeReady rs fuel id g1) as Hpl.
  pose proof (executeReady_not_last rs fuel id g1) as Hlast.
  assert (Hid : _id player = id).
  { apply findPlayer_Some in Hfind as [[= ->] _]. reflexivity. }
  assert (Hfound : forall G, players G = mark_ready id (players g) ->
            findPlayer G (Some id) = Some (mkPlayer id true)).
  { intros G HG. cbn [findPlayer] in *. rewrite HG.
    rewrite (find_mark_ready id (players g) player Hfind), Hid. reflexivity. }
  destruct (executeReady rs fuel id g1) as [G c].
  cbn [fst snd] in Hpl, Hlast. subst g1. cbn [players log] in Hpl, Hlast.
  destruct c as [[]|e|]; cbn [fst snd];
    (split; [exact Hpl|]); (split; [apply Hfound, Hpl|]);
    intros q Hq Hne Hrq; first [reflexivity|discriminate (Hlast q Hq Hne Hrq)].
Qed.

Lemma readyUp_awaits_promise_witness :
  findPlayer (readyUp (promiseReadyRules (Fulfilled (VBool false))) 3 "1"
                VUndefined waiting2).1 (Some "1")
  = Some (mkPlayer "1" true) /\
  (readyUp (promiseReadyRules (Fulfilled (VBool false))) 3 "1"
     VUndefined waiting2).2
  = Returns (Promised (Fulfilled (VBool false))).
Proof.
  destruct (readyUp_awaits_promise
              (promiseReadyRules (Fulfilled (VBool false))) 3 waiting2 "1"
              VUndefined (fun _ _ _ => Promised (Fulfilled (VBool false)))
              (Fulfilled (VBool false)) player1
              eq_refl eq_refl eq_refl eq_refl eq_refl)
    as (_ & _ & Hful).
  destruct (Hful (VBool false) eq_refl) as (_ & Hfound & Hret).
  split; [exact Hfound|].
  apply (Hret player2); [|discriminate|reflexivity].
  apply list_elem_of_In. right. left. reflexivity.
Defined.

Lemma readyUp_marks rs fuel id payload g player :
  started g = false -> findPlayer g (Some id) = Some player ->
  ready player = false -> ready_accepted rs id payload g ->
  players (readyUp rs fuel id payload g).1 = mark_ready id (players g).
Proof.
  intros Hst Hfind Hr Hacc. unfold ready_accepted in Hacc.
  remember (readyUp rs fuel id payload g) as r eqn:Hrun.
  unfold readyUp in Hrun. unfold bind at 1, get at 1 in Hrun.
  rewrite Hst, Hfind, Hr in Hrun.
  destruct (handleReadyUp rs) as [h|].
  - unfold bind at 1, call at 1 in Hrun.
    destruct (h g id payload) as [v|p]; cbn [accepts] in Hacc.
    + destruct Hacc as [Hthen Htruthy]. rewrite Hthen, Htruthy in Hrun.
      subst r. rewrite bind_ret_fst.
      apply (players_after_executeReady rs fuel id
               (log (Called (CallHandleReadyUp id payload)) g)).
    + destruct Hacc as [v ->]. subst r. rewrite bind_ret_map_fst.
      cbn [then_]. rewrite settle_fst, bind_ret_fst.
      apply (players_after_executeReady rs fuel id
               (log (Called (CallHandleReadyUp id payload)) g)).
  - subst r. rewrite bind_ret_fst. apply players_after_executeReady.
Qed.

(** X12. Readying up twice: once [readyUp] has gone on to mark a player
    (there is no [handleReadyUp], or it accepted), every later [readyUp]
    of that player returns [false] and changes nothing, the trace
    included: [handleReadyUp] is not asked again, nothing is broadcast,
    and the game is not started a second time. *)
Theorem readyUp_again_is_refused rs fuel id payload g player :
  started g = false -> findPlayer g (Some id) = Some player ->
  ready player = false -> ready_accepted rs id payload g ->
  forall fuel' payload',
    readyUp rs fuel' id payload' (readyUp rs fuel id payload g).1
    = ((readyUp rs fuel id payload g).1, Returns (Plain (VBool false))).
Proof.
  intros Hst Hfind Hr Hacc fuel' payload'.
  pose proof (readyUp_marks rs fuel id payload g player Hst Hfind Hr Hacc)
    as Hpl.
  remember (readyUp rs fuel id payload g).1 as G eqn:HG. clear HG.
  unfold readyUp. unfold bind at 1, get at 1.
  destruct (started G); [reflexivity|].
  cbn [findPlayer] in *. rewrite Hpl.
  rewrite (find_mark_ready id (players g) player Hfind). reflexivity.
Qed.

Lemma readyUp_again_is_refused_witness :
  readyUp readyRules 3 "1" VUndefined
    (readyUp readyRules 3 "1" VUndefined waiting2).1
  = ((readyUp readyRules 3 "1" VUndefined waiting2).1,
     Returns (Plain (VBool false))).
Proof.
  apply (readyUp_again_is_refused readyRules 3 "1" VUndefined waiting2 player1
           eq_refl eq_refl eq_refl I 3 VUndefined).
Defined.

(** ** Passing the turn *)

Lemma playerMove_accepted rs fuel player move g h v :
  truthy (endResults g) = false -> t_number (turn g) <> 0 ->
  Some (_id player) = t_player_id (turn g) ->
  handleMove rs = Some h -> h g move = Fulfilled v ->
  playerMove rs fuel player move g
  = settle ((nextTurn rs fuel false;;
             ret (Plain (move_value (recorded player v g))))
              (move_recorded player move v g)).
Proof.
  intros Hend Hn Hp Hh Hv.
  rewrite playerMove_guards_pass by assumption. rewrite Hh, Hv.
  reflexivity.
Qed.

Lemma nextTurn_passes rs fuel g next :
  turn_end_resolves rs ->
  t_number (turn g) + 1 <= Z.of_nat (length (playerOrder g)) ->
  findPlayer g (lookupZ (playerOrder g) (t_number (turn g))) = Some next ->
  exists G q,
    nextTurn rs (S (S fuel)) false g = (G, Returns q) /\
    turn G = mkTurn (t_number (turn g) + 1) (Some (_id next)) /\
    round G = round g.
Proof.
  intros Hte Hle Hfind.
  assert (Hgt : (t_number (turn g) + 1 >? Z.of_nat (length (playerOrder g)))
                = false) by (rewrite Z.gtb_ltb; apply Z.ltb_ge; lia).
  assert (Hnext : forall x, players x = players g ->
            playerOrder x = playerOrder g ->
            findPlayer x (lookupZ (playerOrder x) (t_number (turn g) + 1 - 1))
            = Some next).
  { intros x Hpl Hord. replace (t_number (turn g) + 1 - 1) with (t_number (turn g))
      by lia. unfold findPlayer in *. rewrite Hord.
    destruct (lookupZ _ _); [|discriminate]. rewrite Hpl. exact Hfind. }
  cbn [nextTurn]. destruct (handleTurnEnd rs) as [he|] eqn:Hhe.
  - unfold bind at 1, get at 1. unfold bind at 1, call at 1.
    rewrite (Hte he Hhe). unfold bind at 1, then_ at 1.
    unfold bind at 1, get at 1. cbn [turn playerOrder log]. rewrite Hgt.
    destruct (startTurn_found rs fuel (t_number (turn g) + 1)
                (log (Called (CallHandleTurnEnd (turn_player g))) g) next
                (Hnext _ eq_refl eq_refl))
      as (G & HG & Hturn & Hround & _).
    rewrite HG. cbn. exists G, (Promised (Fulfilled VUndefined)).
    split; [reflexivity|]. split; [exact Hturn|exact Hround].
  - unfold bind at 1, get at 1. rewrite Hgt.
    destruct (startTurn_found rs fuel (t_number (turn g) + 1) g next
                (Hnext _ eq_refl eq_refl))
      as (G & HG & Hturn & Hround & _).
    rewrite HG. exists G, (Plain VUndefined).
    split; [reflexivity|]. split; [exact Hturn|exact Hround].
Qed.

Lemma nextTurn_wraps rs fuel g first :
  turn_end_resolves rs -> handleRoundEnd rs = None -> keeps_number rs ->
  Z.of_nat (length (playerOrder g)) < t_number (turn g) + 1 ->
  maxRounds_exceeded (maxRounds g) (r_number (round g) + 1) = false ->
  findPlayer g (lookupZ (playerOrder g) 0) = Some first ->
  exists G q,
    nextTurn rs (S (S (S (S fuel)))) false g = (G, Returns q) /\
    turn G = mkTurn 1 (Some (_id first)) /\
    r_number (round G) = r_number (round g) + 1.
Proof.
  intros Hte Hre Hkeep Hlt Hmax Hfind.
  assert (Hgt : (t_number (turn g) + 1 >? Z.of_nat (length (playerOrder g)))
                = true) by (rewrite Z.gtb_ltb; apply Z.ltb_lt; lia).
  assert (Hround : forall x, players x = players g ->
            playerOrder x = playerOrder g -> maxRounds x = maxRounds g ->
            round x = round g ->
            exists G q, nextRound rs (S (S (S fuel))) x = (G, Returns q) /\
              (q = Plain VUndefined \/ q = Promised (Fulfilled VUndefined)) /\
              turn G = mkTurn 1 (Some (_id first)) /\
              r_number (round G) = r_number (round g) + 1).
  { intros x Hpl Hord Hmr Hrd. cbn [nextRound]. rewrite Hre.
    unfold bind at 1, get at 1. rewrite Hmr, Hrd, Hmax.
    assert (Hfx : findPlayer x (lookupZ (playerOrder x) 0) = Some first).
    { unfold findPlayer in *. rewrite Hord.
      destruct (lookupZ _ _); [|discriminate]. rewrite Hpl. exact Hfind. }
    destruct (startRound_begins rs fuel (r_number (round g) + 1) x first
                Hfx Hkeep) as (G & q & HG & Hq & Hnum & Hturn & _).
    exists G, q. auto. }
  cbn [nextTurn]. destruct (handleTurnEnd rs) as [he|] eqn:Hhe.
  - unfold bind at 1, get at 1. unfold bind at 1, call at 1.
    rewrite (Hte he Hhe). unfold bind at 1, then_ at 1.
    unfold bind at 1, get at 1. cbn [turn playerOrder log]. rewrite Hgt.
    destruct (Hround (log (Called (CallHandleTurnEnd (turn_player g))) g)
                eq_refl eq_refl eq_refl eq_refl)
      as (G & q & HG & Hq & Hturn & Hnum).
    rewrite HG. exists G, (Promised (Fulfilled VUndefined)).
    split; [destruct Hq as [-> | ->]; reflexivity|]. auto.
  - unfold bind at 1, get at 1. rewrite Hgt.
    destruct (Hround g eq_refl eq_refl eq_refl eq_refl)
      as (G & q & HG & Hq & Hturn & Hnum).
    exists G, q. auto.
Qed.

Lemma playerMove_then_nextTurn rs fuel player move g h v G q :
  truthy (endResults g) = false -> t_number (turn g) <> 0 ->
  Some (_id player) = t_player_id (turn g) ->
  handleMove rs = Some h -> h g move = Fulfilled v ->
  nextTurn rs fuel false (move_recorded player move v g) = (G, Returns q) ->
  playerMove rs fuel player move g
  = (G, Returns (Fulfilled (move_value (recorded player v g)))) /\
  moves G = moves g ++ [recorded player v g].
Proof.
  intros Hend Hn Hp Hh Hv Hrun.
  rewrite (playerMove_accepted rs fuel player move g h v) by assumption.
  unfold bind. rewrite Hrun. split; [reflexivity|].
  destruct (same_setup_lifecycle rs fuel (move_recorded player move v g))
    as (_ & Hsame & _).
  specialize (Hsame false). rewrite Hrun in Hsame.
  destruct Hsame as (_ & _ & _ & _ & Hmoves & _). cbn [fst] in Hmoves.
  rewrite Hmoves. reflexivity.
Qed.

(** X13. An accepted move passes the turn on, in the order given, in a
    game whose turn-end hook (if any) resolves. With the turn number [t]
    and the round number [n] at the move:
    - if [t] is not the last place of the order and the player at the next
      place is a player of the game, the turn becomes turn [t + 1] of that
      player, in the same round;
    - if [t] is the last place, there is no round-end hook, [maxRounds]
      does not forbid round [n + 1] and the first player of the order is a
      player of the game, the turn becomes turn 1 of the first player, in
      round [n + 1].
    Either way exactly the one move is added, and the promise returned is
    fulfilled with the move's envelope. *)
Theorem turn_passes_in_order rs fuel player move g h v :
  truthy (endResults g) = false -> t_number (turn g) <> 0 ->
  Some (_id player) = t_player_id (turn g) ->
  handleMove rs = Some h -> h g move = Fulfilled v ->
  turn_end_resolves rs ->
  (forall next,
     t_number (turn g) + 1 <= Z.of_nat (length (playerOrder g)) ->
     findPlayer g (lookupZ (playerOrder g) (t_number (turn g))) = Some next ->
     exists G,
       playerMove rs (S (S fuel)) player move g
       = (G, Returns (Fulfilled (move_value (recorded player v g)))) /\
       turn G = mkTurn (t_number (turn g) + 1) (Some (_id next)) /\
       round G = round g /\
       moves G = moves g ++ [recorded player v g]) /\
  (forall first,
     Z.of_nat (length (playerOrder g)) < t_number (turn g) + 1 ->
     handleRoundEnd rs = None -> keeps_number rs ->
     maxRounds_exceeded (maxRounds g) (r_number (round g) + 1) = false ->
     findPlayer g (lookupZ (playerOrder g) 0) = Some first ->
     exists G,
       playerMove rs (S (S (S (S fuel)))) player move g
       = (G, Returns (Fulfilled (move_value (recorded player v g)))) /\
       turn G = mkTurn 1 (Some (_id first)) /\
       r_number (round G) = r_number (round g) + 1 /\
       moves G = moves g ++ [recorded player v g]).
Proof.
  intros Hend Hn Hp Hh Hv Hte. split.
  - intros next Hle Hfind.
    destruct (nextTurn_passes rs fuel (move_recorded player move v g) next
                Hte Hle Hfind) as (G & q & HG & Hturn & Hround).
    destruct (playerMove_then_nextTurn rs _ player move g h v G q
                Hend Hn Hp Hh Hv HG) as [Hrun Hmoves].
    exists G. auto.
  - intros first Hlt Hre Hkeep Hmax Hfind.
    destruct (nextTurn_wraps rs fuel (move_recorded player move v g) first
                Hte Hre Hkeep Hlt Hmax Hfind) as (G & q & HG & Hturn & Hnum).
    destruct (playerMove_then_nextTurn rs _ player move g h v G q
                Hend Hn Hp Hh Hv HG) as [Hrun Hmoves].
    exists G. auto.
Qed.

Lemma turn_passes_in_order_witness :
  exists G,
    playerMove testRules 2 player1 (VStr "move") playing2
    = (G, Returns (Fulfilled
                     (move_value (recorded player1 (VStr "move") playing2)))) /\
    turn G = mkTurn 2 (Some "2") /\ round G = round playing2 /\
    moves G = moves playing2 ++ [recorded player1 (VStr "move") playing2].
Proof.
  destruct (turn_passes_in_order testRules 0 player1 (VStr "move") playing2
              (fun _ payload => Fulfilled payload) (VStr "move")
              eq_refl ltac:(discriminate) eq_refl eq_refl eq_refl
              ltac:(intros he Hhe; discriminate Hhe)) as [Hnext _].
  apply (Hnext player2); [vm_compute; discriminate|reflexivity].
Defined.

(** ** When the end cannot be reached *)

(** X14. The round-end hook resolves, [maxRounds] forbids another round,
    but the end fails: there is no [handleEnd], or it rejects. The failure
    is caught by the handler that restarts a round: the game is not ended,
    the round [n] that was just finished is started again (turn 1 of the
    first player), beyond [maxRounds] or not, and [nextRound] reports
    success. *)
Theorem failed_end_restarts_round rs fuel g h first :
  handleRoundEnd rs = Some h -> h g (round g) = Fulfilled tt ->
  maxRounds_exceeded (maxRounds g) (r_number (round g) + 1) = true ->
  (handleEnd rs = None \/
   exists he e, handleEnd rs = Some he /\
     he (log (Called (CallHandleRoundEnd (round g))) g) VUndefined
     = Rejected e) ->
  keeps_number rs ->
  findPlayer g (lookupZ (playerOrder g) 0) = Some first ->
  exists G,
    nextRound rs (S (S (S fuel))) g
    = (G, Returns (Promised (Fulfilled VUndefined))) /\
    r_number (round G) = r_number (round g) /\
    turn G = mkTurn 1 (Some (_id first)) /\
    endResults G = endResults g.
Proof.
  intros Hh Hres Hmax Hend Hkeep Hfind.
  cbn [nextRound]. rewrite Hh.
  unfold bind at 1, get at 1. unfold bind at 1, call at 1. rewrite Hres.
  unfold bind at 1, then_ at 1. unfold bind at 1, get at 1.
  cbn [maxRounds round log]. rewrite Hmax.
  set (g1 := log (Called (CallHandleRoundEnd (round g))) g).
  assert (Hfails : exists g2 e,
            settle ((let* p := onEnd rs VUndefined in ret (Promised p)) g1)
            = (g2, Returns (Rejected e)) /\
            players g2 = players g /\ playerOrder g2 = playerOrder g /\
            round g2 = round g /\ endResults g2 = endResults g).
  { destruct Hend as [Hnone | (he & e & Hhe & Hrej)].
    - exists g1, TypeError. unfold onEnd. rewrite Hnone. auto.
    - exists (log (Called (CallHandleEnd VUndefined)) g1), e.
      unfold onEnd. rewrite Hhe. unfold bind, call, then_, ret.
      fold g1 in Hrej. rewrite Hrej. auto. }
  destruct Hfails as (g2 & e & -> & Hpl & Hord & Hrd & Her).
  unfold bind at 1, catch_ at 1. unfold bind at 1, get at 1.
  assert (Hf2 : findPlayer g2 (lookupZ (playerOrder g2) 0) = Some first).
  { unfold findPlayer in *. rewrite Hord.
    destruct (lookupZ _ _); [|discriminate]. rewrite Hpl. exact Hfind. }
  destruct (startRound_begins rs fuel (r_number (round g2)) g2 first Hf2 Hkeep)
    as (G & q & HG & Hq & Hnum & Hturn & HendG).
  rewrite HG. exists G. rewrite Hnum, Hrd, HendG, Her.
  split; [destruct Hq as [-> | ->]; reflexivity|]. auto.
Qed.

Lemma failed_end_restarts_round_witness :
  exists G,
    nextRound (endlessRules None) 3 lastRound2
    = (G, Returns (Promised (Fulfilled VUndefined))) /\
    r_number (round G) = 1 /\ turn G = mkTurn 1 (Some "1") /\
    endResults G = VUndefined.
Proof.
  apply (failed_end_restarts_round (endlessRules None) 0 lastRound2
           (fun _ _ => Fulfilled tt) player1 eq_refl eq_refl eq_refl
           (or_introl eq_refl)).
  - intros hs Hhs. discriminate Hhs.
  - reflexivity.
Defined.

(** X15. A round start that is refused, at the end of the last turn of a
    round, with a reason that is not an error: [handleRoundStart] rejects
    when the next round is started (no round-end hook, [maxRounds] not
    reached).
    - With a turn-end hook (which resolved), the refusal reaches the
      handler meant for that hook's win signal, and the game is ended:
      [handleEnd] is called with the round start's reason, and when it
      resolves [endResults] is its result.
    - Without a turn-end hook nothing catches the refusal: [nextTurn]
      returns the rejected promise and the game is not ended.
    In both cases the round number has already been advanced and the turn
    is still the finished one. *)
Theorem refused_round_start rs fuel g hs e :
  Z.of_nat (length (playerOrder g)) < t_number (turn g) + 1 ->
  handleRoundEnd rs = None ->
  maxRounds_exceeded (maxRounds g) (r_number (round g) + 1) = false ->
  handleRoundStart rs = Some hs -> (forall x r, hs x r = Rejected e) ->
  is_error e = false ->
  (forall hte he results,
     handleTurnEnd rs = Some hte -> hte g (turn_player g) = Fulfilled tt ->
     handleEnd rs = Some he -> (forall x, he x e = Fulfilled results) ->
     exists G,
       nextTurn rs (S (S (S fuel))) false g
       = (G, Returns (Promised (Fulfilled VUndefined))) /\
       endResults G = results /\ Called (CallHandleEnd e) ∈ trace G /\
       r_number (round G) = r_number (round g) + 1 /\ turn G = turn g) /\
  (handleTurnEnd rs = None ->
   exists G,
     nextTurn rs (S (S (S fuel))) false g
     = (G, Returns (Promised (Rejected e))) /\
     endResults G = endResults g /\
     r_number (round G) = r_number (round g) + 1 /\ turn G = turn g).
Proof.
  intros Hlt Hre Hmax Hhs Hrej Herr.
  assert (Hgt : (t_number (turn g) + 1 >? Z.of_nat (length (playerOrder g)))
                = true) by (rewrite Z.gtb_ltb; apply Z.ltb_lt; lia).
  assert (Hround : forall x,
            maxRounds x = maxRounds g -> round x = round g ->
            nextRound rs (S (S fuel)) x
            = (log (Called (CallHandleRoundStart
                              (mkRound (r_number (round g) + 1) [])))
                 (set_round (mkRound (r_number (round g) + 1) []) x),
               Returns (Promised (Rejected e)))).
  { intros x Hmr Hrd. cbn [nextRound]. rewrite Hre.
    unfold bind at 1, get at 1. rewrite Hmr, Hrd, Hmax.
    cbn [startRound]. rewrite Hhs.
    unfold bind at 1, modify at 1. unfold bind at 1, get at 1.
    unfold bind at 1, call at 1. rewrite Hrej. reflexivity. }
  split.
  - intros hte he results Hhte Hte Hhe Hres.
    cbn [nextTurn]. rewrite Hhte.
    unfold bind at 1, get at 1. unfold bind at 1, call at 1. rewrite Hte.
    unfold bind at 1, then_ at 1. unfold bind at 1, get at 1.
    cbn [turn playerOrder log]. rewrite Hgt.
    rewrite (Hround (log (Called (CallHandleTurnEnd (turn_player g))) g)
               eq_refl eq_refl). cbn [settle].
    unfold bind at 1, catch_ at 1. rewrite Herr.
    unfold bind at 1.
    rewrite (onEnd_fulfilled rs _ he e results Hhe (Hres _)).
    eexists. split; [reflexivity|]. cbn.
    split; [reflexivity|]. split; [|split; reflexivity].
    rewrite !elem_of_app, !elem_of_cons. auto 10.
  - intros Hnone. cbn [nextTurn]. rewrite Hnone.
    unfold bind at 1, get at 1. rewrite Hgt.
    eexists. split; [exact (Hround g eq_refl eq_refl)|]. cbn. auto.
Qed.

Lemma refused_round_start_witness :
  (exists G,
     nextTurn (closedRules true (VStr "closed")) 3 false
       (playerMove testRules 2 player1 (VStr "move") playing2).1
     = (G, Returns (Promised (Fulfilled VUndefined))) /\
     endResults G = VStr "closed") /\
  (exists G,
     nextTurn (closedRules false (VStr "closed")) 3 false
       (playerMove testRules 2 player1 (VStr "move") playing2).1
     = (G, Returns (Promised (Rejected (VStr "closed")))) /\
     endResults G = VUndefined).
Proof.
  split.
  - destruct (refused_round_start (closedRules true (VStr "closed")) 0
                (playerMove testRules 2 player1 (VStr "move") playing2).1
                (fun _ _ => Rejected (VStr "closed")) (VStr "closed")
                ltac:(vm_compute; reflexivity) eq_refl eq_refl eq_refl
                ltac:(reflexivity) eq_refl) as [Hend _].
    destruct (Hend (fun _ _ => Fulfilled tt) (fun _ payload => Fulfilled payload)
                (VStr "closed") eq_refl eq_refl eq_refl ltac:(reflexivity))
      as (G & HG & Hres & _).
    exists G. auto.
  - destruct (refused_round_start (closedRules false (VStr "closed")) 0
                (playerMove testRules 2 player1 (VStr "move") playing2).1
                (fun _ _ => Rejected (VStr "closed")) (VStr "closed")
                ltac:(vm_compute; reflexivity) eq_refl eq_refl eq_refl
                ltac:(reflexivity) eq_refl) as [_ Hstuck].
    destruct (Hstuck eq_refl) as (G & HG & Hres & _).
    exists G. auto.
Defined.

(** * Dice *)




(** * The playlist *)

Section PlaylistFacts.

Context {A : Type}.
Implicit Types (pl : Playlist.t A) (gs : list A).

Lemma nexts_state n : forall pl,
  Playlist.games (Playlist.nexts n pl) = Playlist.games pl /\
  Playlist.index (Playlist.nexts n pl) = Playlist.index pl + Z.of_nat n.
Proof.
  induction n as [|n IH]; intros pl; simpl; [split; [reflexivity|lia]|].
  destruct (IH (Playlist.next pl).1) as [Hg Hi]. rewrite Hg, Hi.
  unfold Playlist.next. cbn [Playlist.games Playlist.index].
  destruct (_ =? _); simpl; split; try reflexivity; lia.
Qed.

Lemma next_answer pl :
  (Playlist.next pl).2
  = if Playlist.index pl + 1 =? Z.of_nat (length (Playlist.games pl))
    then Playlist.NextFalse
    else match lookupZ (Playlist.games pl) (Playlist.index pl + 1) with
         | Some game => Playlist.NextGame game
         | None => Playlist.NextUndefined
         end.
Proof.
  unfold Playlist.next. cbn [Playlist.games Playlist.index].
  destruct (_ =? _); reflexivity.
Qed.

(** X17. A playlist holds ten games and no more: of the games added to a
    playlist that is not over-full, the first that fit are kept, in the
    order they were added, and the rest are dropped; [add] answers [true]
    exactly while fewer than ten games are held. [add] never moves the
    position in the list. *)
Theorem playlist_holds_ten gs : forall pl,
  (length (Playlist.games pl) <= 10)%nat ->
  Playlist.games (Playlist.adds gs pl) = take 10 (Playlist.games pl ++ gs) /\
  Playlist.index (Playlist.adds gs pl) = Playlist.index pl /\
  (forall game,
     (Playlist.add game (Playlist.adds gs pl)).2
     = bool_decide (length (Playlist.games pl) + length gs < 10)%nat).
Proof.
  induction gs as [|g gs IH]; intros pl Hle.
  - simpl. rewrite app_nil_r, take_ge by exact Hle.
    split; [reflexivity|]. split; [reflexivity|].
    intros game. unfold Playlist.add.
    destruct (Nat.eqb_spec (length (Playlist.games pl)) 10) as [Heq|Hne].
    + rewrite bool_decide_eq_false_2 by lia. reflexivity.
    + rewrite bool_decide_eq_true_2 by lia. reflexivity.
  - cbn [Playlist.adds fold_left]. fold (Playlist.adds gs (Playlist.add g pl).1).
    destruct (Nat.eqb_spec (length (Playlist.games pl)) 10) as [Heq|Hne].
    + assert (Hstep : (Playlist.add g pl).1 = pl).
      { unfold Playlist.add. apply Nat.eqb_eq in Heq. rewrite Heq. reflexivity. }
      rewrite Hstep. destruct (IH pl Hle) as (Hg & Hi & Hadd).
      rewrite Hg, Hi. split; [|split; [reflexivity|]].
      * rewrite !take_app_le by lia. reflexivity.
      * intros game. rewrite Hadd.
        rewrite !bool_decide_eq_false_2 by (simpl; lia). reflexivity.
    + assert (Hstep : (Playlist.add g pl).1
                      = Playlist.mk (Playlist.games pl ++ [g]) (Playlist.index pl)).
      { unfold Playlist.add. apply Nat.eqb_neq in Hne. rewrite Hne. reflexivity. }
      rewrite Hstep.
      destruct (IH (Playlist.mk (Playlist.games pl ++ [g]) (Playlist.index pl)))
        as (Hg & Hi & Hadd).
      { cbn [Playlist.games]. rewrite length_app. simpl. lia. }
      rewrite Hg, Hi. cbn [Playlist.games Playlist.index].
      split; [rewrite <- app_assoc; reflexivity|]. split; [reflexivity|].
      intros game. rewrite Hadd. cbn [Playlist.games].
      rewrite length_app. simpl. apply bool_decide_ext. lia.
Qed.

End PlaylistFacts.

Lemma playlist_holds_ten_witness :
  Playlist.games (Playlist.adds (seq 0 12) Playlist.new) = seq 0 10.
Proof.
  destruct (playlist_holds_ten (seq 0 12) Playlist.new) as (Hg & _).
  - simpl. lia.
  - exact Hg.
Defined.

Lemma lookupZ_of_nat {A} (l : list A) (k : nat) : lookupZ l (Z.of_nat k) = l !! k.
Proof.
  unfold lookupZ. destruct (Z.ltb_spec (Z.of_nat k) 0) as [Hlt|_]; [lia|].
  rewrite Nat2Z.id. reflexivity.
Qed.

(** X18. Calling [next] over and over on a playlist that has not been
    played yet (position -1): call number [k + 1] returns the game at
    place [k], so the games come in the order of the list; the call after
    the last game returns [false]; and every call after that returns
    [undefined], never [false] again and never a game. *)
Theorem playlist_plays_in_order {A} (pl : Playlist.t A) :
  Playlist.index pl = -1 ->
  (forall k game,
     Playlist.games pl !! k = Some game ->
     (Playlist.next (Playlist.nexts k pl)).2 = Playlist.NextGame game) /\
  (Playlist.next (Playlist.nexts (length (Playlist.games pl)) pl)).2
  = Playlist.NextFalse /\
  (forall k, (length (Playlist.games pl) < k)%nat ->
     (Playlist.next (Playlist.nexts k pl)).2 = Playlist.NextUndefined).
Proof.
  intros Hfresh.
  assert (Hat : forall k,
            Playlist.index (Playlist.nexts k pl) + 1 = Z.of_nat k /\
            Playlist.games (Playlist.nexts k pl) = Playlist.games pl).
  { intros k. destruct (nexts_state k pl) as [Hg Hi]. split; [lia|exact Hg]. }
  split; [|split].
  - intros k game Hk. rewrite next_answer.
    destruct (Hat k) as [-> ->].
    pose proof (lookup_lt_Some _ _ _ Hk) as Hlt.
    destruct (Z.eqb_spec (Z.of_nat k) (Z.of_nat (length (Playlist.games pl))))
      as [Heq|_]; [lia|].
    rewrite lookupZ_of_nat, Hk. reflexivity.
  - rewrite next_answer. destruct (Hat (length (Playlist.games pl))) as [-> ->].
    rewrite Z.eqb_refl. reflexivity.
  - intros k Hk. rewrite next_answer. destruct (Hat k) as [-> ->].
    destruct (Z.eqb_spec (Z.of_nat k) (Z.of_nat (length (Playlist.games pl))))
      as [Heq|_]; [lia|].
    rewrite lookupZ_of_nat, lookup_ge_None_2 by lia. reflexivity.
Qed.

Lemma playlist_plays_in_order_witness :
  (Playlist.next (Playlist.nexts 1 (Playlist.adds ["a"; "b"] Playlist.new))).2
  = Playlist.NextGame "b" /\
  (Playlist.next (Playlist.nexts 2 (Playlist.adds ["a"; "b"] Playlist.new))).2
  = Playlist.NextFalse /\
  (Playlist.next (Playlist.nexts 3 (Playlist.adds ["a"; "b"] Playlist.new))).2
  = Playlist.NextUndefined.
Proof.
  destruct (playlist_plays_in_order (Playlist.adds ["a"; "b"] Playlist.new)
              eq_refl) as (Hgame & Hend & Hafter).
  split; [exact (Hgame 1%nat "b" eq_refl)|].
  split; [exact Hend|]. apply Hafter. simpl. lia.
Defined.

(** X19. A game added once the playlist has run out is never played: on a
    playlist whose [next] has answered [false] (the position is the
    length of the list), [add] accepts the game, but the next call of
    [next] answers [false] again and every later one [undefined]. *)
Theorem late_game_is_never_played {A} (pl : Playlist.t A) game :
  Playlist.index pl = Z.of_nat (length (Playlist.games pl)) ->
  length (Playlist.games pl) <> 10%nat ->
  (Playlist.add game pl).2 = true /\
  Playlist.games (Playlist.add game pl).1 = Playlist.games pl ++ [game] /\
  forall n,
    (Playlist.next (Playlist.nexts n (Playlist.add game pl).1)).2
    = match n with O => Playlist.NextFalse | S _ => Playlist.NextUndefined end.
Proof.
  intros Hend Hroom.
  assert (Hadd : Playlist.add game pl
                 = (Playlist.mk (Playlist.games pl ++ [game]) (Playlist.index pl),
                    true)).
  { unfold Playlist.add. apply Nat.eqb_neq in Hroom. rewrite Hroom. reflexivity. }
  rewrite Hadd. cbn [fst snd Playlist.games].
  split; [reflexivity|]. split; [reflexivity|].
  intros n. rewrite next_answer.
  destruct (nexts_state n
              (Playlist.mk (Playlist.games pl ++ [game]) (Playlist.index pl)))
    as [-> ->].
  cbn [Playlist.games Playlist.index]. rewrite length_app, Hend. simpl length.
  destruct n as [|n].
  - replace (Z.of_nat (length (Playlist.games pl)) + Z.of_nat 0 + 1)
      with (Z.of_nat (length (Playlist.games pl) + 1)) by lia.
    rewrite Z.eqb_refl. reflexivity.
  - destruct (Z.eqb_spec
                (Z.of_nat (length (Playlist.games pl)) + Z.of_nat (S n) + 1)
                (Z.of_nat (length (Playlist.games pl) + 1))) as [Heq|_]; [lia|].
    replace (Z.of_nat (length (Playlist.games pl)) + Z.of_nat (S n) + 1)
      with (Z.of_nat (length (Playlist.games pl) + S n + 1)) by lia.
    rewrite lookupZ_of_nat, lookup_ge_None_2; [reflexivity|].
    rewrite length_app. simpl. lia.
Qed.

Lemma late_game_is_never_played_witness :
  (Playlist.next
     (Playlist.nexts 0
        (Playlist.add "late"
           (Playlist.nexts 2 (Playlist.adds ["a"] Playlist.new))).1)).2
  = Playlist.NextFalse.
Proof.
  destruct (late_game_is_never_played
              (Playlist.nexts 2 (Playlist.adds ["a"] Playlist.new)) "late"
              eq_refl ltac:(discriminate)) as (_ & _ & Hnever).
  exact (Hnever 0%nat).
Defined.

(** * The room *)

Lemma room_find_Some id r m :
  Room.find id r = Some m -> Room._id m = id /\ m ∈ Room.players r.
Proof.
  unfold Room.find. intros H. apply find_some in H as [Hin Heq].
  apply String.eqb_eq in Heq. split; [exact Heq|apply list_elem_of_In, Hin].
Qed.

Lemma room_find_None id r :
  Room.find id r = None -> id ∉ map Room._id (Room.players r).
Proof.
  unfold Room.find. intros H Hin.
  apply list_elem_of_In, in_map_iff in Hin as (m & Hid & Hm).
  pose proof (find_none _ _ H m Hm) as Hneq. cbn beta in Hneq.
  apply String.eqb_neq in Hneq. auto.
Qed.

Lemma addPlayer_rejoin player pw r :
  (Room.addPlayer player pw r).1 = r \/
  (exists m, Room.find (Room._id player) r = Some m /\
     Room.players (Room.addPlayer player pw r).1 = Room.players r) \/
  (Room.find (Room._id player) r = None /\
   Room.players (Room.addPlayer player pw r).1
   = Room.players r
     ++ [Room.mkMember (Room._id player) (Room.username player)
           (Room.rooms player ++ [Room.id r])]).
Proof.
  unfold Room.addPlayer.
  destruct (_ =? _); [auto|].
  destruct (_ && _); [auto|].
  destruct (_ && _); [auto|].
  right. destruct (Room.find (Room._id player) r) as [m|] eqn:Hfind.
  - left. exists m. split; [reflexivity|].
    cbn [fst]. destruct (_ <? _)%nat; reflexivity.
  - right. split; [reflexivity|].
    cbn [fst]. destruct (_ <? _)%nat; reflexivity.
Qed.

(** X20. [addPlayer] checks in this order and stops at the first check
    that fails, leaving the room as it is, its trace included:
    - as many players as the limit: "Room is full." (for a player who is
      already in the room too, and whatever the password);
    - a private room and no password, or an empty one: "Room is private.
      Password required to enter.";
    - a private room and a password that is not the room's: "Incorrect
      password.".
    Otherwise the promise is fulfilled with a view of the room that lists
    the player, the socket has joined, and the player is a member. *)
Theorem addPlayer_admission player pw r :
  (Z.of_nat (length (Room.players r)) = Room.player_limit (Room.settings r) ->
   Room.addPlayer player pw r = (r, Rejected (VStr "Room is full."))) /\
  (Z.of_nat (length (Room.players r)) <> Room.player_limit (Room.settings r) ->
   Room.privacy (Room.settings r) = "private" ->
   (Room.given pw = false ->
    Room.addPlayer player pw r
    = (r, Rejected (VStr "Room is private. Password required to enter."))) /\
   (Room.given pw = true -> Room.password (Room.settings r) <> pw ->
    Room.addPlayer player pw r = (r, Rejected (VStr "Incorrect password.")))) /\
  (Z.of_nat (length (Room.players r)) <> Room.player_limit (Room.settings r) ->
   (Room.privacy (Room.settings r) = "private" ->
    Room.given pw = true /\ Room.password (Room.settings r) = pw) ->
   exists view,
     (Room.addPlayer player pw r).2 = Fulfilled view /\
     Room.v_players view = Room.players (Room.addPlayer player pw r).1 /\
     Room._id player ∈ map Room._id (Room.v_players view) /\
     Room.Joined ∈ Room.trace (Room.addPlayer player pw r).1).
Proof.
  split; [|split].
  - intros Hfull. unfold Room.addPlayer.
    apply Z.eqb_eq in Hfull. rewrite Hfull. reflexivity.
  - intros Hroom Hpriv. unfold Room.addPlayer.
    apply Z.eqb_neq in Hroom. rewrite Hroom, Hpriv.
    change (String.eqb "private" "private") with true. cbn [andb]. split.
    + intros ->. reflexivity.
    + intros -> Hne. rewrite bool_decide_eq_false_2 by exact Hne. reflexivity.
  - intros Hroom Hpw. unfold Room.addPlayer.
    apply Z.eqb_neq in Hroom. rewrite Hroom.
    assert (Hopen : String.eqb (Room.privacy (Room.settings r)) "private"
                    && negb (Room.given pw) = false /\
                    String.eqb (Room.privacy (Room.settings r)) "private"
                    && negb (bool_decide (Room.password (Room.settings r) = pw))
                    = false).
    { destruct (String.eqb_spec (Room.privacy (Room.settings r)) "private")
        as [Hpriv|_]; [|auto].
      destruct (Hpw Hpriv) as [-> Heq].
      rewrite bool_decide_eq_true_2 by exact Heq. auto. }
    destruct Hopen as [-> ->].
    eexists. split; [reflexivity|]. cbn [snd fst].
    destruct (Room.find (Room._id player) r) as [m|] eqn:Hfind.
    + apply room_find_Some in Hfind as [Hid Hin].
      split; [destruct (Room.game _), (_ <? _)%nat; reflexivity|].
      split.
      * destruct (Room.game _); cbn; rewrite <- Hid;
          apply list_elem_of_In, in_map, list_elem_of_In, Hin.
      * destruct (_ <? _)%nat; cbn; rewrite !elem_of_app, !elem_of_cons; auto.
    + split; [destruct (Room.game _), (_ <? _)%nat; reflexivity|].
      split.
      * destruct (Room.game _); cbn; rewrite map_app, elem_of_app; right;
          simpl; left.
      * destruct (_ <? _)%nat; cbn; rewrite !elem_of_app, !elem_of_cons; auto.
Qed.

Lemma addPlayer_admission_witness :
  Room.addPlayer abc None (Room.new "Mock" abc
    (Room.mkChanges None None (Some 0) None) "room" "code")
  = (Room.new "Mock" abc (Room.mkChanges None None (Some 0) None) "room" "code",
     Rejected (VStr "Room is full.")) /\
  Room.addPlayer abc (Some "hunter2") secretRoom
  = (secretRoom, Rejected (VStr "Incorrect password.")) /\
  exists view,
    (Room.addPlayer abc (Some "secret") secretRoom).2 = Fulfilled view /\
    Room._id abc ∈ map Room._id (Room.v_players view).
Proof.
  split; [|split].
  - apply (addPlayer_admission abc None). reflexivity.
  - destruct (addPlayer_admission abc (Some "hunter2") secretRoom)
      as (_ & Hpriv & _).
    apply Hpriv; [discriminate|reflexivity|reflexivity|discriminate].
  - destruct (addPlayer_admission abc (Some "secret") secretRoom)
      as (_ & _ & Hin).
    destruct Hin as (view & Hview & _ & Hmember & _);
      [discriminate|intros _; split; reflexivity|].
    exists view. split; [exact Hview|exact Hmember].
Defined.

(** X21. [addPlayer] never lists a player twice and never drops or
    reorders one: the players before are a prefix of the players after, at
    most one is added, and if no two of them shared an identifier, no two
    of them do afterwards. A member who joins again is not added. *)
Theorem addPlayer_keeps_members_distinct player pw r :
  NoDup (map Room._id (Room.players r)) ->
  NoDup (map Room._id (Room.players (Room.addPlayer player pw r).1)) /\
  Room.players r `prefix_of` Room.players (Room.addPlayer player pw r).1 /\
  (length (Room.players (Room.addPlayer player pw r).1)
   <= S (length (Room.players r)))%nat /\
  (Room._id player ∈ map Room._id (Room.players r) ->
   Room.players (Room.addPlayer player pw r).1 = Room.players r).
Proof.
  intros Hnd.
  destruct (addPlayer_rejoin player pw r)
    as [-> | [(m & Hfind & ->) | (Hfind & ->)]].
  - split; [exact Hnd|]. split; [reflexivity|]. split; [lia|]. reflexivity.
  - split; [exact Hnd|]. split; [reflexivity|]. split; [lia|]. reflexivity.
  - apply room_find_None in Hfind.
    split; [|split; [|split]].
    + rewrite map_app. apply NoDup_app. split; [exact Hnd|].
      split; [|apply NoDup_singleton].
      intros x Hx Hx'. simpl in Hx'. apply list_elem_of_singleton in Hx'.
      subst x. contradiction.
    + apply prefix_app_r. reflexivity.
    + rewrite length_app. simpl. lia.
    + intros Hin. contradiction.
Qed.

Lemma addPlayer_keeps_members_distinct_witness :
  NoDup (map Room._id (Room.players (Room.addPlayer abc None mockRoom).1)) /\
  Room.players (Room.addPlayer abc None mockRoom).1 = Room.players mockRoom.
Proof.
  destruct (addPlayer_keeps_members_distinct abc None mockRoom)
    as (Hnd & _ & _ & Hsame).
  - apply (bool_decide_unpack _). vm_compute. exact I.
  - split; [exact Hnd|]. apply Hsame.
    apply list_elem_of_In. left. reflexivity.
Defined.

Lemma room_find_fresh id r :
  id ∉ map Room._id (Room.players r) -> Room.find id r = None.
Proof.
  unfold Room.find. induction (Room.players r) as [|m ms IH]; intros Hni;
    [reflexivity|].
  simpl in *. apply not_elem_of_cons in Hni as [Hne Hni].
  destruct (String.eqb_spec (Room._id m) id) as [Heq|_]; [congruence|auto].
Qed.

Lemma addPlayer_newcomer player r :
  Z.of_nat (length (Room.players r)) <> Room.player_limit (Room.settings r) ->
  Room.privacy (Room.settings r) <> "private" ->
  Room.find (Room._id player) r = None ->
  Room.players (Room.addPlayer player None r).1
  = Room.players r
    ++ [Room.mkMember (Room._id player) (Room.username player)
          (Room.rooms player ++ [Room.id r])] /\
  Room.settings (Room.addPlayer player None r).1 = Room.settings r.
Proof.
  intros Hroom Hpub Hfind. unfold Room.addPlayer.
  apply Z.eqb_neq in Hroom. apply String.eqb_neq in Hpub.
  rewrite Hroom, Hpub, Hfind. cbn [andb fst].
  destruct (_ <? _)%nat; split; reflexivity.
Qed.

(** X22. The limit stops players only when the room holds exactly as many
    as the limit. A public room that holds more (the limit can be lowered
    under the number present by [updateSettings]) is never full again:
    every newcomer of a series is admitted, in order. *)
Theorem crowded_room_lets_everyone_in ps : forall r,
  Room.player_limit (Room.settings r) < Z.of_nat (length (Room.players r)) ->
  Room.privacy (Room.settings r) <> "private" ->
  NoDup (map Room._id ps) ->
  (forall p, p ∈ ps -> Room._id p ∉ map Room._id (Room.players r)) ->
  map Room._id (Room.players (Room.addPlayers ps r))
  = map Room._id (Room.players r) ++ map Room._id ps.
Proof.
  induction ps as [|p ps IH]; intros r Hover Hpub Hnd Hnew.
  - simpl. rewrite app_nil_r. reflexivity.
  - cbn [Room.addPlayers fold_left].
    fold (Room.addPlayers ps (Room.addPlayer p None r).1).
    apply NoDup_cons in Hnd as [Hp Hnd].
    assert (Hfind : Room.find (Room._id p) r = None).
    { apply room_find_fresh, Hnew. left. }
    destruct (addPlayer_newcomer p r) as [Hpl Hset]; [lia|exact Hpub|exact Hfind|].
    rewrite IH.
    + rewrite Hpl, map_app, <- app_assoc. reflexivity.
    + rewrite Hpl, Hset, length_app. simpl. lia.
    + rewrite Hset. exact Hpub.
    + exact Hnd.
    + intros q Hq. rewrite Hpl, map_app, not_elem_of_app. split.
      * apply Hnew. right. exact Hq.
      * simpl. rewrite list_elem_of_singleton. intros Heq.
        apply Hp. rewrite <- Heq. apply list_elem_of_In, in_map, list_elem_of_In, Hq.
Qed.

Lemma crowded_room_lets_everyone_in_witness :
  Room.player_limit (Room.settings crowdedRoom) = 1 /\
  map Room._id (Room.players (Room.addPlayers [ghi] crowdedRoom))
  = ["1"; "2"; "3"].
Proof.
  split; [reflexivity|].
  apply (crowded_room_lets_everyone_in [ghi] crowdedRoom).
  - vm_compute. reflexivity.
  - discriminate.
  - apply (bool_decide_unpack _). vm_compute. exact I.
  - intros p Hp. apply list_elem_of_singleton in Hp. subst p.
    apply (bool_decide_unpack _). vm_compute. exact I.
Defined.

Lemma removePlayer_players player r :
  Room.players (Room.removePlayer player r).1 = tail (Room.players r).
Proof.
  unfold Room.removePlayer, Room.is_minus_one, Room.to_integer. cbn [fst].
  assert (Hsplice : Room.splice_one 0 (Room.players r) = tail (Room.players r)).
  { unfold Room.splice_one. cbn [Z.ltb Z.compare].
    rewrite Z.min_l by lia. destruct (Room.players r); reflexivity. }
  rewrite Hsplice.
  destruct (Room.game _) as [a|]; cbn [Room.game Room.log Room.set_players].
  - destruct (_ <? _); [unfold Room.handlePlayerLeave, Room.destroy;
      destruct (Room.min_players _); [destruct (_ <? _)|]|];
      destruct (_ <? _)%nat; reflexivity.
  - destruct (_ <? _)%nat; reflexivity.
Qed.

(** X23. [removePlayer] removes the first player of the list, whoever is
    leaving and whether or not the leaver is in the room: the player it
    looked up is used as the position to splice at, and counts as 0. So a
    leaver who is not first stays a member, and the first player is put
    out in their place. The promise is never rejected ("Not in room." is
    not reachable) and is always fulfilled with [false]; the leaver's
    socket always leaves. *)
Theorem removePlayer_removes_the_first player r :
  Room.players (Room.removePlayer player r).1 = tail (Room.players r) /\
  (Room.removePlayer player r).2 = Fulfilled false /\
  Room.Left ∈ Room.trace (Room.removePlayer player r).1 /\
  (forall first rest m,
     Room.players r = first :: rest ->
     Room._id first <> Room._id player ->
     Room.find (Room._id player) r = Some m ->
     Room.find (Room._id player) (Room.removePlayer player r).1 = Some m /\
     Room.players (Room.removePlayer player r).1 = rest).
Proof.
  split; [apply removePlayer_players|]. split; [reflexivity|]. split.
  - unfold Room.removePlayer, Room.is_minus_one. cbn [fst].
    destruct (Room.game _) as [a|]; cbn [Room.game Room.log Room.set_players].
    + destruct (_ <? _); [unfold Room.handlePlayerLeave, Room.destroy;
        destruct (Room.min_players _); [destruct (_ <? _)|]|];
        destruct (_ <? _)%nat; cbn; rewrite !elem_of_app, !elem_of_cons; auto 10.
    + destruct (_ <? _)%nat; cbn; rewrite !elem_of_app, !elem_of_cons; auto 10.
  - intros first rest m Hpl Hne Hfind. unfold Room.find in *.
    rewrite removePlayer_players, Hpl in *. simpl in *.
    apply String.eqb_neq in Hne. rewrite Hne in Hfind. auto.
Qed.

Lemma removePlayer_removes_the_first_witness :
  Room.find "2" (Room.removePlayer def mockRoom).1
  = Some (Room.mkMember "2" "def" ["room"]) /\
  map Room._id (Room.players (Room.removePlayer def mockRoom).1) = ["2"].
Proof.
  destruct (removePlayer_removes_the_first def mockRoom) as (_ & _ & _ & Hstay).
  destruct (Hstay (Room.mkMember "1" "abc" ["room"])
              [Room.mkMember "2" "def" ["room"]]
              (Room.mkMember "2" "def" ["room"])
              eq_refl ltac:(discriminate) eq_refl) as [Hfound Hrest].
  split; [exact Hfound|]. rewrite Hrest. reflexivity.
Defined.

Lemma removePlayer_frame player r :
  Room.game (Room.removePlayer player r).1 = Room.game r /\
  Room.playlist (Room.removePlayer player r).1 = Room.playlist r /\
  Room.trace (Room.removePlayer player r).1
  = Room.trace r ++ [Room.Left]
    ++ (if match Room.game r with
           | Some a =>
               (-1 <? Playlist.index (Room.playlist r))
               && match Room.min_players (Room.gameObj a) with
                  | Some m => Z.of_nat (length (tail (Room.players r))) <? m
                  | None => false
                  end
           | None => false
           end
        then [Room.Sent "game/destroy" Room.Nothing] else [])
    ++ (if (0 <? length (tail (Room.players r)))%nat
        then [Room.Sent "player_leave" (Room.ThePlayer player)] else []).
Proof.
  unfold Room.removePlayer, Room.is_minus_one, Room.to_integer. cbn [fst].
  assert (Hsplice : Room.splice_one 0 (Room.players r) = tail (Room.players r)).
  { unfold Room.splice_one. cbn [Z.ltb Z.compare].
    rewrite Z.min_l by lia. destruct (Room.players r); reflexivity. }
  rewrite Hsplice. cbn [Room.game Room.log Room.set_players Room.playlist].
  unfold Room.handlePlayerLeave, Room.destroy.
  cbn [Room.players Room.log Room.set_players].
  destruct (Room.game r) as [a|] eqn:Hgame.
  - destruct (-1 <? Playlist.index (Room.playlist r));
      [destruct (Room.min_players (Room.gameObj a)) as [m|];
       [destruct (Z.of_nat (length (tail (Room.players r))) <? m)|]|];
      cbn [andb Room.players Room.log Room.set_players];
      destruct (0 <? length (tail (Room.players r)))%nat;
      cbn; rewrite <- ?app_assoc; auto.
  - cbn [Room.players Room.log Room.set_players].
    destruct (0 <? length (tail (Room.players r)))%nat;
      cbn; rewrite <- ?app_assoc; auto.
Qed.

(** X24. A player leaving never stops the game: whatever [removePlayer]
    and the game's [handlePlayerLeave] and [destroy] do, the game stays
    attached to the room with its state, its rules and its details as
    they were, and the playlist stays where it was. "game/destroy" is
    sent exactly when a game is attached, the playlist has been started,
    and fewer players are left than the game's [min_players]; it is not
    sent for a game without [min_players]. *)
Theorem leaving_keeps_the_game player r :
  Room.game (Room.removePlayer player r).1 = Room.game r /\
  Room.playlist (Room.removePlayer player r).1 = Room.playlist r /\
  (Room.Sent "game/destroy" Room.Nothing
     ∈ drop (length (Room.trace r)) (Room.trace (Room.removePlayer player r).1)
   <-> exists a m,
         Room.game r = Some a /\ -1 < Playlist.index (Room.playlist r) /\
         Room.min_players (Room.gameObj a) = Some m /\
         Z.of_nat (length (tail (Room.players r))) < m).
Proof.
  destruct (removePlayer_frame player r) as (Hgame & Hpl & Htrace).
  split; [exact Hgame|]. split; [exact Hpl|].
  rewrite Htrace, drop_app_length.
  assert (Hleave : ~ Room.Sent "game/destroy" Room.Nothing
                     ∈ (if (0 <? length (tail (Room.players r)))%nat
                        then [Room.Sent "player_leave" (Room.ThePlayer player)]
                        else [])).
  { destruct (_ <? _)%nat; [|apply not_elem_of_nil].
    rewrite list_elem_of_singleton. discriminate. }
  assert (Hin : forall sent : bool,
            Room.Sent "game/destroy" Room.Nothing
              ∈ [Room.Left]
                ++ (if sent then [Room.Sent "game/destroy" Room.Nothing] else [])
                ++ (if (0 <? length (tail (Room.players r)))%nat
                    then [Room.Sent "player_leave" (Room.ThePlayer player)]
                    else [])
            <-> sent = true).
  { intros sent. rewrite !elem_of_app, list_elem_of_singleton. split.
    - intros [H|[H|H]]; [discriminate H| |contradiction].
      destruct sent; [reflexivity|]. apply elem_of_nil in H. destruct H.
    - intros ->. right. left. left. }
  rewrite Hin. clear Hin Hleave Htrace Hgame Hpl.
  destruct (Room.game r) as [a|].
  - destruct (Z.ltb_spec (-1) (Playlist.index (Room.playlist r))) as [Hidx|Hidx].
    + destruct (Room.min_players (Room.gameObj a)) as [m|] eqn:Hmin.
      * destruct (Z.ltb_spec (Z.of_nat (length (tail (Room.players r)))) m)
          as [Hlt|Hge]; cbn [andb].
        -- split; [intros _; exists a, m; auto|reflexivity].
        -- split; [discriminate|].
           intros (a' & m' & [= <-] & _ & Hm' & Hlt).
           rewrite Hmin in Hm'. injection Hm' as <-. lia.
      * cbn [andb]. split; [discriminate|].
        intros (a' & m' & [= <-] & _ & Hm' & _). congruence.
    + cbn [andb]. split; [discriminate|].
      intros (a' & m' & _ & Hlt & _). lia.
  - split; [discriminate|].
    intros (a' & m' & Hno & _). discriminate Hno.
Qed.

Lemma leaving_keeps_the_game_witness :
  Room.Sent "game/destroy" Room.Nothing
    ∈ drop (length (Room.trace duelRoom))
        (Room.trace (Room.removePlayer def duelRoom).1) /\
  Room.game (Room.removePlayer def duelRoom).1 = Room.game duelRoom.
Proof.
  destruct (leaving_keeps_the_game def duelRoom) as (Hgame & _ & Hsent).
  split; [|exact Hgame]. apply Hsent.
  exists (Room.mkAttached duelGame testRules
            (init testRules 3 (newGame "test" ["1"; "2"])).1), 2.
  split; [vm_compute; reflexivity|]. split; [vm_compute; reflexivity|].
  split; [reflexivity|]. vm_compute. reflexivity.
Defined.


(** ** The room's settings *)

Lemma given_nonempty s : Room.given (Some s) = negb (String.eqb s "").
Proof. reflexivity. Qed.

(** X25. What [updateSettings] can and cannot change. It touches the
    settings and the join code only, and sends nothing. The code changes
    exactly when the privacy does, to the code just generated. The
    password changes only in a room that is private once the privacy has
    been updated, and only to a password that is not empty; it is never
    cleared, not even when the room is made public. The mode never
    changes, and a limit that is not 0 never becomes 0. *)
Theorem updateSettings_changes fresh c r :
  Room.name (Room.updateSettings fresh c r) = Room.name r /\
  Room.host (Room.updateSettings fresh c r) = Room.host r /\
  Room.players (Room.updateSettings fresh c r) = Room.players r /\
  Room.playlist (Room.updateSettings fresh c r) = Room.playlist r /\
  Room.game (Room.updateSettings fresh c r) = Room.game r /\
  Room.trace (Room.updateSettings fresh c r) = Room.trace r /\
  Room.mode (Room.settings (Room.updateSettings fresh c r))
  = Room.mode (Room.settings r) /\
  Room.code (Room.updateSettings fresh c r)
  = (if bool_decide (Room.privacy (Room.settings (Room.updateSettings fresh c r))
                     = Room.privacy (Room.settings r))
     then Room.code r else fresh) /\
  (Room.password (Room.settings (Room.updateSettings fresh c r))
   <> Room.password (Room.settings r) ->
   Room.privacy (Room.settings (Room.updateSettings fresh c r)) = "private" /\
   Room.password (Room.settings (Room.updateSettings fresh c r))
   = Room.to_password c /\
   Room.given (Room.to_password c) = true) /\
  (Room.player_limit (Room.settings r) <> 0 ->
   Room.player_limit (Room.settings (Room.updateSettings fresh c r)) <> 0).
Proof.
  unfold Room.updateSettings.
  destruct c as [[p|] m [n|] pw]; cbn [Room.to_privacy Room.to_mode
    Room.to_player_limit Room.to_password].
  all: repeat match goal with
       | |- context [String.eqb ?a ?b] =>
           destruct (String.eqb_spec a b)
       | |- context [Z.eqb ?a ?b] => destruct (Z.eqb_spec a b)
       | |- context [Room.given ?s] => destruct (Room.given s) eqn:?
       end; cbn [negb andb Room.settings Room.set_settings Room.set_code
                 Room.privacy Room.mode Room.player_limit Room.password
                 Room.name Room.host Room.players Room.playlist Room.game
                 Room.trace Room.code].
  all: repeat split; try reflexivity; try congruence.
  all: try (rewrite bool_decide_eq_true_2 by congruence; reflexivity).
  all: try (rewrite bool_decide_eq_false_2 by congruence; reflexivity).
  all: try (intros; lia).
  all: intros; cbn in *; congruence.
Qed.

Lemma updateSettings_changes_witness :
  Room.password
    (Room.settings
       (Room.updateSettings "code2"
          (Room.mkChanges (Some "private") None None (Some "hunter2"))
          mockRoom))
  = Some "hunter2" /\
  Room.code
    (Room.updateSettings "code2"
       (Room.mkChanges (Some "private") None None (Some "hunter2")) mockRoom)
  = "code2".
Proof.
  destruct (updateSettings_changes "code2"
              (Room.mkChanges (Some "private") None None (Some "hunter2"))
              mockRoom)
    as (_ & _ & _ & _ & _ & _ & _ & Hcode & Hpw & _).
  split; [|exact Hcode].
  destruct Hpw as (_ & Hset & _); [discriminate|exact Hset].
Defined.

(** X26. Updating the settings twice with the same settings object is the
    same as updating them once: the second update changes nothing, and
    does not use the code generated for it. *)
Theorem updateSettings_twice fresh fresh' c r :
  Room.updateSettings fresh' c (Room.updateSettings fresh c r)
  = Room.updateSettings fresh c r.
Proof.
  unfold Room.updateSettings.
  destruct c as [[p|] m [n|] pw]; cbn [Room.to_privacy Room.to_mode
    Room.to_player_limit Room.to_password].
  all: repeat (match goal with
       | |- context [String.eqb ?a ?b] =>
           destruct (String.eqb_spec a b)
       | |- context [Z.eqb ?a ?b] => destruct (Z.eqb_spec a b)
       | |- context [Room.given ?s] => destruct (Room.given s) eqn:?
       end; cbn [negb andb Room.settings Room.set_settings Room.set_code
                 Room.privacy Room.mode Room.player_limit Room.password
                 Room.name Room.host Room.players Room.playlist Room.game
                 Room.trace Room.code Room.id] in *).
  all: try reflexivity; try congruence.
Qed.

(** ** The host *)

(** X27. [changeHost] by cases. The rejection "Player is not in room" is
    never given: for a player who is not in the room the call throws a
    TypeError and the room is untouched. For a player of the room the
    host becomes that player, and then:
    - if the host so far is a player of the room too, the change is
      announced once, with a view of the room that names the new host, and
      the promise is fulfilled with the new host;
    - if not, the call throws a TypeError with the host already changed
      and nothing announced. *)
Theorem changeHost_outcomes player_id r :
  (Room.find player_id r = None ->
   Room.changeHost player_id r = (r, Throws TypeError)) /\
  (forall new_host,
     Room.find player_id r = Some new_host ->
     Room.host (Room.changeHost player_id r).1 = player_id /\
     Room.players (Room.changeHost player_id r).1 = Room.players r /\
     (Room.find (Room.host r) r = None ->
      (Room.changeHost player_id r).2 = Throws TypeError /\
      Room.trace (Room.changeHost player_id r).1 = Room.trace r) /\
     (forall old_host,
        Room.find (Room.host r) r = Some old_host ->
        (Room.changeHost player_id r).2 = Returns (Fulfilled new_host) /\
        exists view change,
          Room.trace (Room.changeHost player_id r).1
          = Room.trace r
            ++ [Room.Sent "room/update_settings" (Room.TheChanges view change)] /\
          Room.v_host view = player_id)).
Proof.
  unfold Room.changeHost. split.
  - intros ->. reflexivity.
  - intros new_host Hnew. rewrite Hnew.
    apply room_find_Some in Hnew as [Hid _].
    destruct (Room.find (Room.host r) r) as [old_host|]; cbn; rewrite Hid.
    + split; [reflexivity|]. split; [reflexivity|].
      split; [discriminate|]. intros ? [= <-]. split; [reflexivity|].
      eexists _, _. split; [reflexivity|]. reflexivity.
    + split; [reflexivity|]. split; [reflexivity|].
      split; [auto|]. discriminate.
Qed.

Lemma changeHost_outcomes_witness :
  Room.host (Room.changeHost "2" mockRoom).1 = "2" /\
  (Room.changeHost "2" mockRoom).2
  = Returns (Fulfilled (Room.mkMember "2" "def" ["room"])) /\
  Room.changeHost "3" mockRoom = (mockRoom, Throws TypeError).
Proof.
  destruct (changeHost_outcomes "2" mockRoom) as [_ Hin].
  destruct (Hin (Room.mkMember "2" "def" ["room"]) eq_refl)
    as (Hhost & _ & _ & Hold).
  destruct (Hold (Room.mkMember "1" "abc" ["room"]) eq_refl) as [Hret _].
  split; [exact Hhost|]. split; [exact Hret|].
  destruct (changeHost_outcomes "3" mockRoom) as [Hout _].
  apply Hout. reflexivity.
Defined.

(** ** Starting the playlist *)

Lemma init_players_first rs fuel g :
  init rs fuel g
  = init rs fuel (set_players (map createPlayer (room_players g)) g).
Proof. reflexivity. Qed.

Lemma init_of_new_game rs fuel game_name ids :
  name (init rs fuel (newGame game_name ids)).1 = game_name /\
  playerOrder (init rs fuel (newGame game_name ids)).1 = ids /\
  players (init rs fuel (newGame game_name ids)).1 = map createPlayer ids /\
  moves (init rs fuel (newGame game_name ids)).1 = [].
Proof.
  rewrite init_players_first.
  assert (H : name (init rs fuel
                      (set_players (map createPlayer
                                      (room_players (newGame game_name ids)))
                         (newGame game_name ids))).1 = game_name /\
              playerOrder (init rs fuel
                      (set_players (map createPlayer
                                      (room_players (newGame game_name ids)))
                         (newGame game_name ids))).1 = ids /\
              room_players (init rs fuel
                      (set_players (map createPlayer
                                      (room_players (newGame game_name ids)))
                         (newGame game_name ids))).1 = ids /\
              players (init rs fuel
                      (set_players (map createPlayer
                                      (room_players (newGame game_name ids)))
                         (newGame game_name ids))).1 = map createPlayer ids /\
              moves (init rs fuel
                      (set_players (map createPlayer
                                      (room_players (newGame game_name ids)))
                         (newGame game_name ids))).1 = []).
  { apply (preserves_init
             (P := fun x => name x = game_name /\ playerOrder x = ids /\
                            room_players x = ids /\
                            players x = map createPlayer ids /\ moves x = [])).
    - intros e x (? & ? & ? & ? & ?). repeat split; assumption.
    - intros e x (? & ? & ? & ? & ?). repeat split; assumption.
    - intros e x (? & ? & ? & ? & ?). repeat split; assumption.
    - intros t p x (? & ? & ? & ? & ?) _. repeat split; assumption.
    - intros x (? & ? & ? & ? & ?). repeat split; assumption.
    - intros x (? & ? & Hroom & ? & ?).
      split; [assumption|]. split; [assumption|]. split; [assumption|].
      split; [cbn; rewrite Hroom; reflexivity|assumption].
    - intros v x (? & ? & ? & ? & ?). repeat split; assumption.
    - repeat split. }
  tauto.
Qed.

(** X28. [start] with a loader, when the playlist has a next game:
    the game is constructed for the room as it is and initialised, and is
    then the room's game. It has the name of the playlist's game, the
    rules the loader gave for the slug of that name, one player for every
    member of the room, in joining order, which is also its turn order,
    and no moves. The playlist has moved on by one place and the members
    are as before. If the initialisation returns, the playlist is
    broadcast and [start] returns [undefined]. *)
Theorem start_launches_next_game slugify load fuel r plGame :
  (Playlist.next (Room.playlist r)).2 = Playlist.NextGame plGame ->
  (exists g,
     Room.game (Room.start slugify (Some load) fuel r).1
     = Some (Room.mkAttached plGame (load (slugify (Room.g_name plGame))) g) /\
     name g = Room.g_name plGame /\
     playerOrder g = map Room._id (Room.players r) /\
     players g = map createPlayer (map Room._id (Room.players r)) /\
     moves g = []) /\
  Room.players (Room.start slugify (Some load) fuel r).1 = Room.players r /\
  Playlist.index (Room.playlist (Room.start slugify (Some load) fuel r).1)
  = Playlist.index (Room.playlist r) + 1 /\
  ((exists u,
      (init (load (slugify (Room.g_name plGame))) fuel
         (newGame (Room.g_name plGame) (map Room._id (Room.players r)))).2
      = Returns u) ->
   (Room.start slugify (Some load) fuel r).2 = Returns VUndefined /\
   exists pl,
     Room.trace (Room.start slugify (Some load) fuel r).1
     = Room.trace r ++ [Room.Sent "room/update_playlist" (Room.ThePlaylist pl)]).
Proof.
  intros Hnext. unfold Room.start. rewrite Hnext.
  cbn [Room.players Room.set_playlist].
  destruct (init_of_new_game (load (slugify (Room.g_name plGame))) fuel
              (Room.g_name plGame) (map Room._id (Room.players r)))
    as (Hname & Horder & Hplayers & Hmoves).
  assert (Hidx : Playlist.index (Playlist.next (Room.playlist r)).1
                 = Playlist.index (Room.playlist r) + 1).
  { unfold Playlist.next. cbn [Playlist.index Playlist.games].
    destruct (_ =? _); reflexivity. }
  destruct (init _ fuel _) as [g c]. cbn [fst snd] in *.
  split; [|split; [|split]].
  - exists g. split; [destruct c; reflexivity|]. auto.
  - destruct c; reflexivity.
  - destruct c; exact Hidx.
  - intros [u ->]. split; [reflexivity|]. eexists. reflexivity.
Qed.

Lemma start_launches_next_game_witness :
  exists g,
    Room.game (Room.start slug (Some loadTest) 3 readyRoom).1
    = Some (Room.mkAttached testGame testRules g) /\
    playerOrder g = ["1"; "2"] /\
    (Room.start slug (Some loadTest) 3 readyRoom).2 = Returns VUndefined.
Proof.
  destruct (start_launches_next_game slug loadTest 3 readyRoom testGame eq_refl)
    as ((g & Hgame & _ & Horder & _) & _ & _ & Hret).
  exists g. split; [exact Hgame|]. split; [exact Horder|].
  apply Hret. eexists. vm_compute. reflexivity.
Defined.

(** X29. [start] without a loader, as the timer set at the end of a game
    calls it, never starts a game: if the playlist has a next game the
    call throws a TypeError, sends nothing, and has moved the playlist on
    past that game; if it has none, "room/playlist_end" is sent and
    [false] returned. Either way the game attached to the room, the one
    that ended, stays attached. *)
Theorem restart_launches_nothing slugify fuel r :
  Room.game (Room.start slugify None fuel r).1 = Room.game r /\
  Playlist.index (Room.playlist (Room.start slugify None fuel r).1)
  = Playlist.index (Room.playlist r) + 1 /\
  (forall plGame,
     (Playlist.next (Room.playlist r)).2 = Playlist.NextGame plGame ->
     (Room.start slugify None fuel r).2 = Throws TypeError /\
     Room.trace (Room.start slugify None fuel r).1 = Room.trace r) /\
  ((forall plGame,
      (Playlist.next (Room.playlist r)).2 <> Playlist.NextGame plGame) ->
   (Room.start slugify None fuel r).2 = Returns (VBool false) /\
   Room.trace (Room.start slugify None fuel r).1
   = Room.trace r ++ [Room.Sent "room/playlist_end" Room.Nothing]).
Proof.
  unfold Room.start.
  assert (Hidx : Playlist.index (Playlist.next (Room.playlist r)).1
                 = Playlist.index (Room.playlist r) + 1).
  { unfold Playlist.next. cbn [Playlist.index Playlist.games].
    destruct (_ =? _); reflexivity. }
  destruct (Playlist.next (Room.playlist r)).2 as [plGame| |]; cbn.
  - split; [reflexivity|]. split; [exact Hidx|].
    split; [intros ? _; auto|]. intros Hnone. destruct (Hnone plGame eq_refl).
  - split; [reflexivity|]. split; [exact Hidx|].
    split; [discriminate|]. auto.
  - split; [reflexivity|]. split; [exact Hidx|].
    split; [discriminate|]. auto.
Qed.

Lemma restart_launches_nothing_witness :
  (Room.start slug None 3 readyRoom).2 = Throws TypeError /\
  (Room.start slug None 3 (Room.start slug None 3 readyRoom).1).2
  = Returns (VBool false).
Proof.
  split.
  - destruct (restart_launches_nothing slug 3 readyRoom) as (_ & _ & Hthrow & _).
    destruct (Hthrow testGame eq_refl) as [Hret _]. exact Hret.
  - destruct (restart_launches_nothing slug 3
                (Room.start slug None 3 readyRoom).1) as (_ & _ & _ & Hend).
    destruct Hend as [Hret _]; [|exact Hret].
    intros plGame. vm_compute. discriminate.
Defined.
